(** * icloud-to-slack: the change-detection and delivery pipeline of [main.py]

    A shallow embedding of [src/main.py] and the properties of its
    seen-state store, its two-tier delivery dispatcher and its orchestrator.

    Conventions of the embedding:
    - a Python [str] is a list of Unicode code points ([list N]);
    - a Python [set] of strings is a [gset str];
    - effects (the file system, the network, the console) are threaded
      explicitly: a computation takes the file system and returns its result
      or the exception it raised, the new file system and the events it
      performed, in order;
    - everything outside the program (HTTP servers, the EXIF parser, the
      clock, the browser, the name of a temporary file, the iteration order
      of a [set]) is an oracle collected in the record [Env]. *)

From Stdlib Require Import NArith ZArith Lia String Ascii.
From stdpp Require Import gmap list sorting.

Set Warnings "-register-all".

Local Open Scope N_scope.

(** ** Python strings *)

Abbreviation str := (list N).

(** An ASCII literal of the source, as code points. *)
Definition py (s : string) : str := map N_of_ascii (list_ascii_of_string s).

Module Str.

(** [c.isspace()] for a code point: the characters [str.strip()] removes. *)
Definition isspace (c : N) : bool :=
  ((9 <=? c) && (c <=? 13)) || ((28 <=? c) && (c <=? 32))
  || (c =? 133) || (c =? 160) || (c =? 5760)
  || ((8192 <=? c) && (c <=? 8202))
  || (c =? 8232) || (c =? 8233) || (c =? 8239) || (c =? 8287) || (c =? 12288).

Fixpoint lstrip (s : str) : str :=
  match s with
  | c :: t => if isspace c then lstrip t else s
  | [] => []
  end.

Definition rstrip (s : str) : str := rev (lstrip (rev s)).

(** [s.strip()] *)
Definition strip (s : str) : str := rstrip (lstrip s).

(** [s.split(sep)] for a separator of one character: never empty. *)
Fixpoint split (sep : N) (s : str) : list str :=
  match s with
  | [] => [[]]
  | c :: t =>
      if c =? sep then [] :: split sep t
      else match split sep t with
           | h :: r => (c :: h) :: r
           | [] => [[c]]
           end
  end.

Fixpoint startswith (p s : str) : bool :=
  match p, s with
  | [], _ => true
  | _ :: _, [] => false
  | a :: p', b :: s' => (a =? b) && startswith p' s'
  end.

(** [p in s] *)
Fixpoint contains (p s : str) : bool :=
  startswith p s ||
  match s with
  | [] => false
  | _ :: t => contains p t
  end.

(** [a <= b]: comparison of strings is lexicographic on code points. *)
Fixpoint leb (a b : str) : bool :=
  match a, b with
  | [], _ => true
  | _ :: _, [] => false
  | x :: a', y :: b' => (x <? y) || ((x =? y) && leb a' b')
  end.

Definition le (a b : str) : Prop := leb a b = true.
Definition lt (a b : str) : Prop := le a b ∧ a ≠ b.

#[global] Instance le_dec a b : Decision (le a b).
Proof. unfold le. apply _. Defined.

(** [sorted(xs)] *)
Definition sorted (l : list str) : list str := merge_sort le l.

End Str.

(** ** The [json] module, as far as the state file needs it

    [json.dump] is only ever applied to a list of strings; [json.loads] is
    applied to whatever the state file holds, so the decoder covers the whole
    grammar (CPython's scanner in its default strict mode). *)

Module Json.

Inductive value :=
| JNull
| JBool (b : bool)
| JNum (raw : str)
| JStr (s : str)
| JArr (items : list value)
| JObj (members : list (str * value)).

(** *** Encoder ([ensure_ascii=True], the default) *)

Definition hex_digit (d : N) : N := if d <? 10 then 48 + d else 87 + d.

(** ['{0:04x}'.format(n)] for [n < 0x10000] *)
Definition hex4 (n : N) : str :=
  [hex_digit (n / 4096 mod 16); hex_digit (n / 256 mod 16);
   hex_digit (n / 16 mod 16); hex_digit (n mod 16)].

Definition backslash_u (n : N) : str := 92 :: 117 :: hex4 n.

(** The replacement of one character by [py_encode_basestring_ascii]:
    [ESCAPE_DCT] for the short escapes, the character itself between
    space and tilde, a [\uXXXX] escape below 0x10000 and a surrogate
    pair above. *)
Definition escape_char (c : N) : str :=
  if c =? 34 then [92; 34]
  else if c =? 92 then [92; 92]
  else if c =? 8 then [92; 98]
  else if c =? 12 then [92; 102]
  else if c =? 10 then [92; 110]
  else if c =? 13 then [92; 114]
  else if c =? 9 then [92; 116]
  else if (32 <=? c) && (c <=? 126) then [c]
  else if c <? 65536 then backslash_u c
  else
    let n := c - 65536 in
    let s1 := N.lor 55296 (N.land (N.shiftr n 10) 1023) in
    let s2 := N.lor 56320 (N.land n 1023) in
    backslash_u s1 ++ backslash_u s2.

Definition encode_str (s : str) : str := 34 :: flat_map escape_char s ++ [34].

(** [', '.join(items)] *)
Fixpoint join_comma (items : list str) : str :=
  match items with
  | [] => []
  | [x] => x
  | x :: rest => x ++ 44 :: 32 :: join_comma rest
  end.

(** The text [json.dump(l, f)] writes for a list of strings [l]. *)
Definition dump_strs (l : list str) : str :=
  91 :: join_comma (map encode_str l) ++ [93].

(** *** Decoder *)

Definition is_ws (c : N) : bool :=
  (c =? 32) || (c =? 9) || (c =? 10) || (c =? 13).

Fixpoint skip_ws (s : str) : str :=
  match s with
  | c :: t => if is_ws c then skip_ws t else s
  | [] => []
  end.

Definition hex_val (c : N) : option N :=
  if (48 <=? c) && (c <=? 57) then Some (c - 48)
  else if (97 <=? c) && (c <=? 102) then Some (c - 87)
  else if (65 <=? c) && (c <=? 70) then Some (c - 55)
  else None.

Definition decode_hex4 (a b c d : N) : option N :=
  match hex_val a, hex_val b, hex_val c, hex_val d with
  | Some x, Some y, Some z, Some w => Some (((x * 16 + y) * 16 + z) * 16 + w)
  | _, _, _, _ => None
  end.

Definition is_high_surrogate (u : N) : bool := (55296 <=? u) && (u <=? 56319).
Definition is_low_surrogate (u : N) : bool := (56320 <=? u) && (u <=? 57343).

(** [0x10000 + (((uni - 0xd800) << 10) | (uni2 - 0xdc00))] *)
Definition join_surrogates (uni uni2 : N) : N :=
  65536 + N.lor (N.shiftl (uni - 55296) 10) (uni2 - 56320).

Definition unescape (e : N) : option N :=
  if e =? 34 then Some 34
  else if e =? 92 then Some 92
  else if e =? 47 then Some 47
  else if e =? 98 then Some 8
  else if e =? 102 then Some 12
  else if e =? 110 then Some 10
  else if e =? 114 then Some 13
  else if e =? 116 then Some 9
  else None.

Definition push (c : N) (r : option (str * str)) : option (str * str) :=
  match r with
  | Some (s, rest) => Some (c :: s, rest)
  | None => None
  end.

(** [scanstring], entered after the opening quote: the decoded string and
    the text after the closing quote, or [None] for a [JSONDecodeError]
    (unterminated string, control character, bad escape). *)
Fixpoint scan_string (s : str) : option (str * str) :=
  match s with
  | [] => None
  | c :: t =>
      if c =? 34 then Some ([], t)
      else if c =? 92 then
        match t with
        | [] => None
        | e :: t1 =>
            if e =? 117 then
              match t1 with
              | h1 :: h2 :: h3 :: h4 :: t5 =>
                  match decode_hex4 h1 h2 h3 h4 with
                  | None => None
                  | Some uni =>
                      if is_high_surrogate uni then
                        match t5 with
                        | b :: u :: g1 :: g2 :: g3 :: g4 :: t11 =>
                            if (b =? 92) && (u =? 117) then
                              match decode_hex4 g1 g2 g3 g4 with
                              | None => None
                              | Some uni2 =>
                                  if is_low_surrogate uni2
                                  then push (join_surrogates uni uni2) (scan_string t11)
                                  else push uni (scan_string t5)
                              end
                            else push uni (scan_string t5)
                        | _ => push uni (scan_string t5)
                        end
                      else push uni (scan_string t5)
                  end
              | _ => None
              end
            else
              match unescape e with
              | Some ch => push ch (scan_string t1)
              | None => None
              end
        end
      else if c <? 32 then None
      else push c (scan_string t)
  end.

Definition is_digit (c : N) : bool := (48 <=? c) && (c <=? 57).

Fixpoint span_digits (s : str) : str * str :=
  match s with
  | c :: t =>
      if is_digit c then let (d, r) := span_digits t in (c :: d, r)
      else ([], s)
  | [] => ([], [])
  end.

(** The integer part of a number: an optional minus sign, then [0] or a
    digit string that does not start with [0]. *)
Definition scan_int (s : str) : option (str * str) :=
  let (sign, s1) :=
    match s with
    | c :: t => if c =? 45 then ([45], t) else ([], s)
    | [] => ([], s)
    end in
  match s1 with
  | c :: t =>
      if (49 <=? c) && (c <=? 57) then
        let (d, r) := span_digits t in Some (sign ++ c :: d, r)
      else if c =? 48 then Some (sign ++ [48], t)
      else None
  | [] => None
  end.

(** A fraction is read only when a digit follows the point. *)
Definition scan_frac (s : str) : str * str :=
  match s with
  | p :: d :: t =>
      if (p =? 46) && is_digit d then
        let (ds, r) := span_digits t in (p :: d :: ds, r)
      else ([], s)
  | _ => ([], s)
  end.

(** An exponent is read only when it has a digit; otherwise the scanner
    backtracks to the [e]. *)
Definition scan_exp (s : str) : str * str :=
  match s with
  | e :: t =>
      if (e =? 101) || (e =? 69) then
        let (sg, t1) :=
          match t with
          | c :: t' => if (c =? 45) || (c =? 43) then ([c], t') else ([], t)
          | [] => ([], t)
          end in
        match span_digits t1 with
        | ([], _) => ([], s)
        | (ds, r) => (e :: sg ++ ds, r)
        end
      else ([], s)
  | [] => ([], s)
  end.

Definition scan_number (s : str) : option (str * str) :=
  match scan_int s with
  | None => None
  | Some (i, r) =>
      let (f, r1) := scan_frac r in
      let (e, r2) := scan_exp r1 in
      Some (i ++ f ++ e, r2)
  end.

(** The result of a scan: a value and the rest of the text, a
    [JSONDecodeError], or not enough fuel. *)
Inductive presult (A : Type) :=
| POk (a : A) (rest : str)
| PErr
| PFuel.
Arguments POk {A} a rest.
Arguments PErr {A}.
Arguments PFuel {A}.

Definition strip_prefix (p s : str) : option str :=
  if Str.startswith p s then Some (drop (length p) s) else None.

(** The named constants of [scan_once], and after them the numbers. *)
Definition scan_atom (s : str) : option (value * str) :=
  match strip_prefix (py "null") s with
  | Some r => Some (JNull, r)
  | None =>
  match strip_prefix (py "true") s with
  | Some r => Some (JBool true, r)
  | None =>
  match strip_prefix (py "false") s with
  | Some r => Some (JBool false, r)
  | None =>
  match strip_prefix (py "NaN") s with
  | Some r => Some (JNum (py "NaN"), r)
  | None =>
  match strip_prefix (py "Infinity") s with
  | Some r => Some (JNum (py "Infinity"), r)
  | None =>
  match strip_prefix (py "-Infinity") s with
  | Some r => Some (JNum (py "-Infinity"), r)
  | None =>
  match scan_number s with
  | Some (n, r) => Some (JNum n, r)
  | None => None
  end end end end end end end.

(** [scan_once]: strings, objects and arrays first, then the rest. *)
Fixpoint parse_value (fuel : nat) (s : str) : presult value :=
  match fuel with
  | O => PFuel
  | S f =>
      match s with
      | [] => PErr
      | c :: t =>
          if c =? 34 then
            match scan_string t with
            | Some (x, r) => POk (JStr x) r
            | None => PErr
            end
          else if c =? 123 then
            match skip_ws t with
            | c' :: r =>
                if c' =? 125 then POk (JObj []) r
                else
                  match parse_members f (c' :: r) with
                  | POk ms r' => POk (JObj ms) r'
                  | PErr => PErr
                  | PFuel => PFuel
                  end
            | [] => PErr
            end
          else if c =? 91 then
            match skip_ws t with
            | c' :: r =>
                if c' =? 93 then POk (JArr []) r
                else
                  match parse_elems f (c' :: r) with
                  | POk vs r' => POk (JArr vs) r'
                  | PErr => PErr
                  | PFuel => PFuel
                  end
            | [] => PErr
            end
          else
            match scan_atom s with
            | Some (v, r) => POk v r
            | None => PErr
            end
      end
  end

(** The items of a non-empty array, up to and including the bracket. *)
with parse_elems (fuel : nat) (s : str) : presult (list value) :=
  match fuel with
  | O => PFuel
  | S f =>
      match parse_value f s with
      | POk v r =>
          match skip_ws r with
          | c :: r' =>
              if c =? 93 then POk [v] r'
              else if c =? 44 then
                match parse_elems f (skip_ws r') with
                | POk vs r'' => POk (v :: vs) r''
                | PErr => PErr
                | PFuel => PFuel
                end
              else PErr
          | [] => PErr
          end
      | PErr => PErr
      | PFuel => PFuel
      end
  end

(** The members of a non-empty object, up to and including the brace. *)
with parse_members (fuel : nat) (s : str) : presult (list (str * value)) :=
  match fuel with
  | O => PFuel
  | S f =>
      match s with
      | q :: t =>
          if q =? 34 then
            match scan_string t with
            | None => PErr
            | Some (k, r) =>
                match skip_ws r with
                | colon :: r1 =>
                    if colon =? 58 then
                      match parse_value f (skip_ws r1) with
                      | POk v r2 =>
                          match skip_ws r2 with
                          | c :: r3 =>
                              if c =? 125 then POk [(k, v)] r3
                              else if c =? 44 then
                                match parse_members f (skip_ws r3) with
                                | POk ms r4 => POk ((k, v) :: ms) r4
                                | PErr => PErr
                                | PFuel => PFuel
                                end
                              else PErr
                          | [] => PErr
                          end
                      | PErr => PErr
                      | PFuel => PFuel
                      end
                    else PErr
                | [] => PErr
                end
            end
          else PErr
      | [] => PErr
      end
  end.

Definition fuel_for (s : str) : nat := 2 * length s + 2.

(** [json.loads(s)]: leading white space, one value, trailing white space
    and nothing else; [None] stands for [json.JSONDecodeError]. *)
Definition loads (s : str) : option value :=
  match parse_value (fuel_for s) (skip_ws s) with
  | POk v r => match skip_ws r with [] => Some v | _ :: _ => None end
  | PErr => None
  | PFuel => None
  end.

End Json.

(** A Unicode scalar value: a code point that is not a surrogate. *)
Definition scalar (c : N) : Prop := c < 1114112 ∧ ¬ (55296 <= c <= 57343).

(** A well-formed identifier is a string of Unicode scalar values (every
    URL is); a well-formed set holds only such strings. *)
Definition wf_ident (u : str) : Prop := Forall scalar u.
Definition wf_set (X : gset str) : Prop := set_Forall wf_ident X.

#[global] Instance scalar_dec c : Decision (scalar c).
Proof. unfold scalar. apply _. Defined.

#[global] Instance wf_ident_dec u : Decision (wf_ident u).
Proof. unfold wf_ident. apply _. Defined.

#[global] Instance wf_set_dec X : Decision (wf_set X).
Proof. unfold wf_set. apply _. Defined.

(** ** Effects *)

(** The exceptions the program can meet; [requests] raises subclasses of
    [RequestException] for transport errors and invalid URLs. *)
Inductive exn :=
| RequestException
| JSONDecodeError
| TypeError
| OtherError.

Inductive res (A : Type) :=
| Ret (a : A)
| Raise (e : exn).
Arguments Ret {A} a.
Arguments Raise {A} e.

(** The body of the webhook POST ([json=payload]). *)
Record payload := {
  text : str;
  fallback : str;
  image_url : str;
  attachment_text : str;
}.

(** Every [print] of the source, by the message it formats. *)
Inductive message :=
| WarnInvalidJson
| MsgDownloading (url : str)
| MsgDownloadFailed (status : Z)
| MsgExifFailed
| MsgUploading
| MsgPostedFile (filename : str)
| MsgUploadFailed (status : Z)
| MsgUploadErrorText (body : str)
| MsgErrorUploading (e : exn)
| MsgWebhookFallback
| MsgPostedWebhook (url : str)
| MsgWebhookFailed (status : Z) (body : str)
| MsgLaunching
| MsgNavigating (album : option str)
| MsgFound (n : nat)
| MsgChecking
| ErrAlbumUrlNotSet
| ErrWebhookNotSet
| WarnTokenNotSet
| WarnWebhookOnly
| MsgFoundNew (n : nat)
| MsgPosted (n : nat)
| MsgNonePosted
| MsgNoNew.

(** What a run does to the outside world, in order.  [ECall] is not an
    effect of its own: it marks the entry of [post_to_slack], so that a
    trace shows which deliveries were attempted. *)
Inductive event :=
| EPrint (m : message)
| EExists (path : str)
| ERead (path : str)
| EWrite (path : str) (data : str)
| ECreateTemp (path : str)
| EAppend (path : str) (chunk : str)
| EOpenImage (path : str)
| EOpenRb (path : str)
| EUnlink (path : str)
| EHttpGet (url : str)
| EUpload (token filename content comment : str)
| EWebhook (url : str) (p : payload)
| EScrape (album : option str)
| ECall (url : str).

(** The file an event reads, creates, writes or deletes. *)
Definition event_path (e : event) : option str :=
  match e with
  | EExists p | ERead p | EWrite p _ | ECreateTemp p | EAppend p _
  | EOpenImage p | EOpenRb p | EUnlink p => Some p
  | _ => None
  end.

Definition touches (p : str) (e : event) : Prop := event_path e = Some p.

(** The events that change a file rather than look at it. *)
Definition mutates (p : str) (e : event) : Prop :=
  match e with
  | EWrite q _ | ECreateTemp q | EAppend q _ | EUnlink q => q = p
  | _ => False
  end.

Definition is_print (e : event) : Prop :=
  match e with EPrint _ => True | _ => False end.

(** The deliveries a trace attempts, in order. *)
Definition deliveries (tr : list event) : list str :=
  omap (λ e, match e with ECall u => Some u | _ => None end) tr.

(** The payloads a trace posts to the webhook, in order. *)
Definition webhook_posts (tr : list event) : list payload :=
  omap (λ e, match e with EWebhook _ p => Some p | _ => None end) tr.

(** The file system: the content of every file that exists. *)
Abbreviation FS := (gmap (list N) (list N)).

Record outcome (A : Type) := {
  result : res A;
  files : FS;
  events : list event;
}.
Arguments result {A} _.
Arguments files {A} _.
Arguments events {A} _.

(** A computation: from the file system to a result or an exception, the
    file system afterwards, and the events performed. *)
Definition M (A : Type) : Type := FS → outcome A.

#[global] Instance M_ret : MRet M := λ A a fs,
  {| result := Ret a; files := fs; events := [] |}.

#[global] Instance M_bind : MBind M := λ A B k m fs,
  let o := m fs in
  match result o with
  | Ret a =>
      let o' := k a (files o) in
      {| result := result o'; files := files o';
         events := events o ++ events o' |}
  | Raise e => {| result := Raise e; files := files o; events := events o |}
  end.

Definition raise {A} (e : exn) : M A := λ fs,
  {| result := Raise e; files := fs; events := [] |}.

(** [try: m except Exception as e: h e] *)
Definition catch {A} (m : M A) (h : exn → M A) : M A := λ fs,
  let o := m fs in
  match result o with
  | Ret a => o
  | Raise e =>
      let o' := h e (files o) in
      {| result := result o'; files := files o';
         events := events o ++ events o' |}
  end.

Definition emit (e : event) : M unit := λ fs,
  {| result := Ret tt; files := fs; events := [e] |}.

Definition print (m : message) : M unit := emit (EPrint m).

(** The content of a file, if the file exists. *)
Definition lookup_file (path : str) : M (option str) := λ fs,
  {| result := Ret (fs !! path); files := fs; events := [] |}.

(** The content of a file that exists. *)
Definition read_file (path : str) : M str := λ fs,
  {| result := Ret (default [] (fs !! path)); files := fs; events := [] |}.

Definition modify_files (f : FS → FS) : M unit := λ fs,
  {| result := Ret tt; files := f fs; events := [] |}.

(** ** The environment of a run *)

Inductive get_outcome :=
| GetRaise (e : exn)
| GetResp (status : Z) (chunks : list str) (stream_error : option exn).

(** [upload_response.json().get("ok")]: its truth value, or the exception
    of a body that is not a JSON object. *)
Inductive json_outcome :=
| JsonRaise (e : exn)
| JsonOk (ok : bool).

Inductive upload_outcome :=
| UploadRaise (e : exn)
| UploadResp (status : Z) (body_text : str) (body : json_outcome).

Inductive post_outcome :=
| PostRaise (e : exn)
| PostResp (status : Z) (body_text : str).

(** [img._getexif()]: an exception (also of [Image.open] or of the import
    of PIL), nothing, or the tags by name with their values as text. *)
Inductive exif_outcome :=
| ExifRaise
| ExifNone
| ExifTags (items : list (str * str)).

Inductive scrape_outcome :=
| ScrapeRaise (e : exn)
| ScrapeOk (img_srcs : list str).

Record Env := {
  http_get : str → get_outcome;
  files_upload : str → str → str → str → upload_outcome;
  webhook_post : str → payload → post_outcome;
  getexif : str → exif_outcome;
  now : str → str;
  temp_stem : str → str;
  page_img_srcs : option str → scrape_outcome;
  set_iter : gset str → list str;
}.

(** A [set] is iterated in an order the language leaves open, each element
    once. *)
Definition set_iter_ok (env : Env) : Prop :=
  ∀ X : gset str, set_iter env X ≡ₚ elements X.

(** The settings read from the environment at import time;
    [os.environ.get] gives [None] for a variable that is not set. *)
Record Config := {
  ALBUM_URL : option str;
  SLACK_WEBHOOK : option str;
  SLACK_API_TOKEN : option str;
}.

(** The truth value of [os.environ.get(...)]: set and not empty. *)
Definition truthy (v : option str) : bool :=
  match v with
  | Some (_ :: _) => true
  | _ => false
  end.

Definition SEEN_FILE : str := py "seen_photos.json".

(** ** The seen-state store *)

(** [set(json.loads(content))] for a decoded value: [None] stands for the
    [TypeError] of a value that cannot be iterated or of an item that cannot
    be hashed.  Numbers, booleans and [null] inside an array are members of
    the Python set as well; they are equal to no string, and the model
    keeps the members that are strings. *)
Definition set_of_json (j : Json.value) : option (gset str) :=
  match j with
  | Json.JArr items =>
      if forallb (λ v, match v with
                       | Json.JArr _ | Json.JObj _ => false
                       | _ => true
                       end) items
      then Some (list_to_set
                   (omap (λ v, match v with
                               | Json.JStr s => Some s
                               | _ => None
                               end) items))
      else None
  | Json.JStr s => Some (list_to_set (map (λ c, [c]) s))
  | Json.JObj members => Some (list_to_set (map fst members))
  | Json.JNull | Json.JBool _ | Json.JNum _ => None
  end.

Section Program.
Variable cfg : Config.
Variable env : Env.

Definition load_seen_photos : M (gset str) :=
  emit (EExists SEEN_FILE);;
  found ← lookup_file SEEN_FILE;
  match found with
  | None => mret ∅
  | Some file_text =>
      emit (ERead SEEN_FILE);;
      let content := Str.strip file_text in
      match content with
      | [] => mret ∅
      | _ :: _ =>
          match Json.loads content with
          | None => print WarnInvalidJson;; mret ∅
          | Some j =>
              match set_of_json j with
              | Some seen => mret seen
              | None => raise TypeError
              end
          end
      end
  end.

Definition save_seen_photos (photo_urls : gset str) : M unit :=
  let data := Json.dump_strs (set_iter env photo_urls) in
  emit (EWrite SEEN_FILE data);;
  modify_files (insert SEEN_FILE data).

(** *** The delivery dispatcher *)

(** How the [if SLACK_API_TOKEN:] block ends: with a [return], or by
    falling out of it to the webhook, with [metadata_text] among the
    locals or not. *)
Inductive tier1_exit :=
| Returned (b : bool)
| FellThrough (metadata_text : option str).

Definition temp_path (url : str) : str := temp_stem env url ++ py ".jpg".

Fixpoint write_chunks (path : str) (chunks : list str) : M unit :=
  match chunks with
  | [] => mret tt
  | chunk :: rest =>
      match chunk with
      | [] => write_chunks path rest
      | _ :: _ =>
          emit (EAppend path chunk);;
          modify_files (λ fs, <[path := default [] (fs !! path) ++ chunk]> fs);;
          write_chunks path rest
      end
  end.

(** The [metadata] dictionary: the three tags of interest, a later
    value replacing an earlier one. *)
Definition collect_metadata (items : list (str * str)) : gmap (list N) (list N) :=
  foldl (λ (metadata : gmap (list N) (list N)) '(tag, value),
           if bool_decide (tag ∈ [py "DateTimeOriginal"; py "Make"; py "Model"])
           then <[tag := value]> metadata else metadata)
        ∅ items.

Definition metadata_lines (metadata : gmap (list N) (list N)) : str :=
  match metadata !! py "DateTimeOriginal" with
  | Some taken => 128197 :: py " Taken: " ++ taken ++ [10]
  | None => []
  end ++
  match metadata !! py "Make", metadata !! py "Model" with
  | Some make, Some model =>
      128241 :: py " Device: " ++ make ++ 32 :: model ++ [10]
  | _, _ => []
  end.

(** Lines 66 to 88: never raises. *)
Definition extract_metadata (path : str) : M str :=
  emit (EOpenImage path);;
  image ← read_file path;
  match getexif env image with
  | ExifRaise => print MsgExifFailed;; mret []
  | ExifNone => mret []
  | ExifTags items => mret (metadata_lines (collect_metadata items))
  end.

Definition UPLOAD_HEADER : str :=
  128248 :: py " New photo added to the shared album at ".

Definition WEBHOOK_HEADER : str :=
  128248 :: py " *New photo added to the shared album!*".

(** Lines 90 to 125: the upload, the clean-up after it and the verdict. *)
Definition upload (token url filename metadata_text : str) : M tier1_exit :=
  let path := temp_path url in
  print MsgUploading;;
  emit (EOpenRb path);;
  file_content ← read_file path;
  let initial_comment :=
    UPLOAD_HEADER ++ now env url ++
    match metadata_text with
    | [] => []
    | _ :: _ => 10 :: metadata_text
    end in
  emit (EUpload token filename file_content initial_comment);;
  match files_upload env token filename file_content initial_comment with
  | UploadRaise e => raise e
  | UploadResp status body_text body =>
      emit (EUnlink path);;
      modify_files (delete path);;
      if bool_decide (status = 200%Z) then
        match body with
        | JsonRaise e => raise e
        | JsonOk true => print (MsgPostedFile filename);; mret (Returned true)
        | JsonOk false =>
            print (MsgUploadFailed status);;
            print (MsgUploadErrorText body_text);;
            mret (FellThrough (Some metadata_text))
        end
      else
        print (MsgUploadFailed status);;
        print (MsgUploadErrorText body_text);;
        mret (FellThrough (Some metadata_text))
  end.

(** Lines 50 to 128, the [try] block and its handler.  The handler is
    written at two places because what follows it reads [metadata_text]
    from [locals()]: the name is bound once line 66 has run and not
    before. *)
Definition tier1 (token url filename : str) : M tier1_exit :=
  catch
    (print (MsgDownloading url);;
     emit (EHttpGet url);;
     match http_get env url with
     | GetRaise e => raise e
     | GetResp status chunks stream_error =>
         if bool_decide (status ≠ 200%Z) then
           print (MsgDownloadFailed status);;
           mret (Returned false)
         else
           let path := temp_path url in
           emit (ECreateTemp path);;
           modify_files (insert path []);;
           write_chunks path chunks;;
           match stream_error with
           | Some e => raise e
           | None =>
               metadata_text ← extract_metadata path;
               catch (upload token url filename metadata_text)
                     (λ e, print (MsgErrorUploading e);;
                           mret (FellThrough (Some metadata_text)))
           end
     end)
    (λ e, print (MsgErrorUploading e);; mret (FellThrough None)).

(** Lines 133 to 146: the message of the fallback; [metadata_text] is
    [None] when the name is not among the locals. *)
Definition fallback_payload (url filename : str) (metadata_text : option str)
  : payload :=
  let message_text :=
    WEBHOOK_HEADER ++
    match metadata_text with
    | Some (c :: t) => 10 :: c :: t
    | _ => []
    end in
  {| text := message_text;
     fallback := py "New photo from shared album";
     image_url := url;
     attachment_text := py "Filename: `" ++ filename ++ py "`" |}.

(** Lines 130 to 154. *)
Definition webhook_fallback (url filename : str) (metadata_text : option str)
  : M bool :=
  print MsgWebhookFallback;;
  let p := fallback_payload url filename metadata_text in
  match SLACK_WEBHOOK cfg with
  | None => raise RequestException
  | Some hook =>
      emit (EWebhook hook p);;
      match webhook_post env hook p with
      | PostRaise e => raise e
      | PostResp status body_text =>
          if bool_decide (status = 200%Z) then
            print (MsgPostedWebhook url);; mret true
          else
            print (MsgWebhookFailed status body_text);; mret false
      end
  end.

(** Line 47: [image_url.split("?")[0].split("/")[-1]] *)
Definition filename_of (url : str) : str :=
  List.last (Str.split 47 (hd [] (Str.split 63 url))) [].

Definition post_to_slack (url : str) : M bool :=
  emit (ECall url);;
  let filename := filename_of url in
  exit ←
    match SLACK_API_TOKEN cfg with
    | Some (c :: t) => tier1 (c :: t) url filename
    | _ => mret (FellThrough None)
    end;
  match exit with
  | Returned b => mret b
  | FellThrough metadata_text => webhook_fallback url filename metadata_text
  end.

(** *** The scraper *)

Definition run_scraper : M (list str) :=
  print MsgLaunching;;
  print (MsgNavigating (ALBUM_URL cfg));;
  emit (EScrape (ALBUM_URL cfg));;
  match page_img_srcs env (ALBUM_URL cfg) with
  | ScrapeRaise e => raise e
  | ScrapeOk img_srcs =>
      let photos :=
        filter (λ src, Str.contains (py "icloud") src = true
                       ∧ Str.contains (py "content.com") src = true)
               img_srcs in
      let unique_photos := set_iter env (list_to_set photos) in
      print (MsgFound (length unique_photos));;
      mret unique_photos
  end.

(** *** The orchestrator *)

(** The [for] loop of lines 214 to 216, with its counter. *)
Fixpoint post_all (urls : list str) (success_count : nat) : M nat :=
  match urls with
  | [] => mret success_count
  | url :: rest =>
      post_to_slack url ≫= λ ok : bool,
      post_all rest (if ok then S success_count else success_count)
  end.

(** Lines 209 to 224 of [main]: what is done with the seen set and the
    snapshot once both are known. *)
Definition deliver_new (seen current : gset str) : M unit :=
  let new_photos := current ∖ seen in
  if bool_decide (new_photos ≠ ∅) then
    print (MsgFoundNew (size new_photos));;
    success_count ← post_all (Str.sorted (elements new_photos)) 0;
    if bool_decide (0 < success_count)%nat then
      save_seen_photos current;;
      print (MsgPosted success_count)
    else
      print MsgNonePosted
  else
    print MsgNoNew.

Definition main : M unit :=
  print MsgChecking;;
  if negb (truthy (ALBUM_URL cfg)) then print ErrAlbumUrlNotSet
  else if negb (truthy (SLACK_WEBHOOK cfg)) then print ErrWebhookNotSet
  else
    (if negb (truthy (SLACK_API_TOKEN cfg))
     then print WarnTokenNotSet;; print WarnWebhookOnly
     else mret tt);;
    seen ← load_seen_photos;
    photos ← run_scraper;
    deliver_new seen (list_to_set photos).

End Program.

(** ** What is observed of a run *)

(** An outcome with more events before its own. *)
Definition prepend {A} (tr : list event) (o : outcome A) : outcome A :=
  {| result := result o; files := files o; events := tr ++ events o |}.

(** Every event of [m] satisfies [P], whatever the file system. *)
Definition traced {A} (P : event → Prop) (m : M A) : Prop :=
  ∀ fs, Forall P (events (m fs)).

(** [m] leaves every file outside [Q] as it was. *)
Definition frames {A} (Q : str → Prop) (m : M A) : Prop :=
  ∀ fs q, ¬ Q q → files (m fs) !! q = fs !! q.

(** [wp m fs Q]: the run of [m] from [fs] ends in a result, a file system
    and a trace that satisfy [Q]. *)
Definition wp {A} (m : M A) (fs : FS)
    (Q : res A → FS → list event → Prop) : Prop :=
  Q (result (m fs)) (files (m fs)) (events (m fs)).

(** The file holds the encoding of an array of identifier strings. *)
Definition encodes_identifiers (file_text : str) : Prop :=
  ∃ l, Json.loads (Str.strip file_text) = Some (Json.JArr (map Json.JStr l)).

(** The events that leave the state file as it is and are no delivery. *)
Definition harmless (e : event) : Prop :=
  ¬ mutates SEEN_FILE e ∧ ∀ u, e ≠ ECall u.

(** The end of a trace that saves: the write of the state file and the
    report of the count; or nothing. *)
Definition save_tail (tr : list event) : Prop :=
  tr = [] ∨ ∃ data n, tr = [EWrite SEEN_FILE data; EPrint (MsgPosted n)].

(** The events of the first tier. *)
Definition tier1_event (e : event) : Prop :=
  match e with
  | EHttpGet _ | EUpload _ _ _ _ | ECreateTemp _ | EAppend _ _
  | EOpenImage _ | EOpenRb _ | EUnlink _ => True
  | _ => False
  end.

(** The lines a trace prints for a delivery that succeeded. *)
Definition success_lines (tr : list event) : list message :=
  omap (λ e, match e with
             | EPrint (MsgPostedFile filename) => Some (MsgPostedFile filename)
             | EPrint (MsgPostedWebhook url) => Some (MsgPostedWebhook url)
             | _ => None
             end) tr.

(** The writes of the chunks that are not empty, in their order. *)
Definition appends (path : str) (chunks : list str) : list event :=
  map (EAppend path) (filter (λ chunk, chunk ≠ []) chunks).

Section Observations.
Variable cfg : Config.
Variable env : Env.

(** What a delivery of [url] may do after its entry: print, talk to the
    network about [url], and work on its own temporary file. *)
Definition dispatch_event (url : str) (e : event) : Prop :=
  match e with
  | EPrint _ | EUpload _ _ _ _ => True
  | EHttpGet u => u = url
  | EWebhook hook p => SLACK_WEBHOOK cfg = Some hook ∧ image_url p = url
  | ECreateTemp p | EAppend p _ | EOpenImage p | EOpenRb p | EUnlink p =>
      p = temp_path env url
  | EExists _ | ERead _ | EWrite _ _ | EScrape _ | ECall _ => False
  end.

(** The upload of the first tier was answered with status 200 and a true
    [ok]. *)
Definition upload_accepted (tr : list event) : Prop :=
  ∃ token filename content comment body_text,
    EUpload token filename content comment ∈ tr
    ∧ files_upload env token filename content comment
      = UploadResp 200 body_text (JsonOk true).

(** The POST to the webhook was answered with status 200. *)
Definition webhook_accepted (tr : list event) : Prop :=
  ∃ hook p body_text,
    EWebhook hook p ∈ tr ∧ webhook_post env hook p = PostResp 200 body_text.

(** What a run that delivers nothing does: it prints, looks at the state
    file and scrapes. *)
Definition looks_only (e : event) : Prop :=
  is_print e ∨ e = EExists SEEN_FILE ∨ e = ERead SEEN_FILE
  ∨ e = EScrape (ALBUM_URL cfg).

(** The value of [metadata_text] after lines 66 to 88, for the bytes of
    the image. *)
Definition exif_text (image : str) : str :=
  match getexif env image with
  | ExifTags items => metadata_lines (collect_metadata items)
  | ExifRaise | ExifNone => []
  end.

(** The value of [initial_comment] on line 98. *)
Definition upload_comment (url metadata_text : str) : str :=
  UPLOAD_HEADER ++ now env url ++
  match metadata_text with
  | [] => []
  | _ :: _ => 10 :: metadata_text
  end.

End Observations.


(** ** Sample settings and environments *)

Module Sample.

Definition photo_a : str := py "https://cvws.icloud-content.com/B/a.jpg?o=1".
Definition photo_b : str := py "https://cvws.icloud-content.com/B/b.jpg?o=2".
Definition hook : str := py "https://hooks.slack.com/services/T0/B0/x".

Definition settings (webhook token : option str) : Config :=
  {| ALBUM_URL := Some (py "https://www.icloud.com/sharedalbum/#B0");
     SLACK_WEBHOOK := webhook;
     SLACK_API_TOKEN := token |}.

(** Both tiers available. *)
Definition cfg : Config := settings (Some hook) (Some (py "xoxb-1")).
(** No upload credential. *)
Definition cfg_webhook_only : Config := settings (Some hook) None.
(** No webhook. *)
Definition cfg_no_webhook : Config := settings None (Some (py "xoxb-1")).

(** The page shows two photos, one of them twice, and a logo that is not
    on the media CDN. *)
Definition world (get : get_outcome) (up : upload_outcome)
    (post : post_outcome) : Env :=
  {| http_get := λ _, get;
     files_upload := λ _ _ _ _, up;
     webhook_post := λ _ _, post;
     getexif := λ _, ExifTags [(py "Make", py "Apple"); (py "Model", py "iPhone")];
     now := λ _, py "2025-03-01 12:00:00";
     temp_stem := λ _, py "/tmp/tmpk3x9";
     page_img_srcs := λ _,
       ScrapeOk [photo_b; photo_a; py "https://www.icloud.com/logo.png";
                 photo_b];
     set_iter := elements |}.

Definition image : get_outcome := GetResp 200 [py "JFIF"; []; py "data"] None.

(** Everything answers and accepts. *)
Definition env : Env :=
  world image (UploadResp 200 [] (JsonOk true)) (PostResp 200 (py "ok")).
(** The download is refused; the webhook would accept. *)
Definition env_download_refused : Env :=
  world (GetResp 404 [] None) (UploadResp 200 [] (JsonOk true))
        (PostResp 200 (py "ok")).
(** The upload request breaks; the webhook accepts. *)
Definition env_upload_breaks : Env :=
  world image (UploadRaise RequestException) (PostResp 200 (py "ok")).
(** The webhook cannot be reached. *)
Definition env_webhook_down : Env :=
  world image (UploadResp 500 [] (JsonOk false)) (PostRaise RequestException).

End Sample.

(** More environments: one fault each. *)
Module Faults.

Definition with_getexif (exif : exif_outcome) (e : Env) : Env :=
  {| http_get := http_get e;
     files_upload := files_upload e;
     webhook_post := webhook_post e;
     getexif := λ _, exif;
     now := now e;
     temp_stem := temp_stem e;
     page_img_srcs := page_img_srcs e;
     set_iter := set_iter e |}.

Definition with_page (page : scrape_outcome) (e : Env) : Env :=
  {| http_get := http_get e;
     files_upload := files_upload e;
     webhook_post := webhook_post e;
     getexif := getexif e;
     now := now e;
     temp_stem := temp_stem e;
     page_img_srcs := λ _, page;
     set_iter := set_iter e |}.

(** The EXIF parser raises. *)
Definition env_exif_breaks : Env := with_getexif ExifRaise Sample.env.
(** The browser raises. *)
Definition env_browser_breaks : Env :=
  with_page (ScrapeRaise OtherError) Sample.env.
(** The upload is answered with status 500; the webhook accepts. *)
Definition env_upload_refused : Env :=
  Sample.world Sample.image (UploadResp 500 [] (JsonOk false))
               (PostResp 200 (py "ok")).
(** The stream of the image breaks after its first chunk. *)
Definition env_stream_breaks : Env :=
  Sample.world (GetResp 200 [py "JFIF"] (Some RequestException))
               (UploadResp 200 [] (JsonOk true)) (PostResp 200 (py "ok")).

End Faults.

(** ** The codec on lists of strings *)

(** Settles the comparisons of code points in the goal, where linear
    arithmetic decides them. *)
Ltac n_decide :=
  repeat match goal with
  | |- context [?a <=? ?b] =>
      first [rewrite (proj2 (N.leb_le a b)) by lia
            |rewrite (proj2 (N.leb_gt a b)) by lia]
  | |- context [?a <? ?b] =>
      first [rewrite (proj2 (N.ltb_lt a b)) by lia
            |rewrite (proj2 (N.ltb_ge a b)) by lia]
  | |- context [?a =? ?b] =>
      first [rewrite (proj2 (N.eqb_eq a b)) by lia
            |rewrite (proj2 (N.eqb_neq a b)) by lia]
  end.

Module JsonFacts.
Import Json.

Lemma hex_val_digit d : d < 16 → hex_val (hex_digit d) = Some d.
Proof.
  intros Hd. unfold hex_digit, hex_val.
  destruct (N.ltb_spec d 10); n_decide; cbn [andb]; f_equal; lia.
Qed.

Lemma decode_hex4_hex4 n :
  n < 65536 →
  decode_hex4 (hex_digit (n / 4096 mod 16)) (hex_digit (n / 256 mod 16))
              (hex_digit (n / 16 mod 16)) (hex_digit (n mod 16)) = Some n.
Proof.
  intros Hn. unfold decode_hex4.
  rewrite !hex_val_digit by (apply N.mod_upper_bound; lia).
  change 4096 with (16 * 16 * 16). change 256 with (16 * 16).
  rewrite <- !N.Div0.div_div.
  assert (n / 16 / 16 / 16 < 16).
  { rewrite !N.Div0.div_div. apply N.Div0.div_lt_upper_bound. lia. }
  rewrite (N.mod_small (n / 16 / 16 / 16) 16) by lia.
  pose proof (N.div_mod' n 16). pose proof (N.div_mod' (n / 16) 16).
  pose proof (N.div_mod' (n / 16 / 16) 16).
  f_equal; lia.
Qed.

(** *** Equations of the string scanner *)

Lemma scan_plain c t :
  c ≠ 34 → c ≠ 92 → 32 <= c →
  scan_string (c :: t) = push c (scan_string t).
Proof.
  intros. cbn [scan_string].
  destruct (N.eqb_spec c 34); [done|]. destruct (N.eqb_spec c 92); [done|].
  destruct (N.ltb_spec c 32); [lia|done].
Qed.

Lemma scan_u_unfold h1 h2 h3 h4 t5 :
  scan_string (92 :: 117 :: h1 :: h2 :: h3 :: h4 :: t5) =
  match decode_hex4 h1 h2 h3 h4 with
  | None => None
  | Some uni =>
      if is_high_surrogate uni then
        match t5 with
        | b :: u :: g1 :: g2 :: g3 :: g4 :: t11 =>
            if (b =? 92) && (u =? 117) then
              match decode_hex4 g1 g2 g3 g4 with
              | None => None
              | Some uni2 =>
                  if is_low_surrogate uni2
                  then push (join_surrogates uni uni2) (scan_string t11)
                  else push uni (scan_string t5)
              end
            else push uni (scan_string t5)
        | _ => push uni (scan_string t5)
        end
      else push uni (scan_string t5)
  end.
Proof. reflexivity. Qed.

Lemma scan_u n t :
  n < 65536 → is_high_surrogate n = false →
  scan_string (backslash_u n ++ t) = push n (scan_string t).
Proof.
  intros Hn Hhi. unfold backslash_u, hex4. cbn [app].
  by rewrite scan_u_unfold, decode_hex4_hex4, Hhi.
Qed.

Lemma scan_pair hi lo t :
  hi < 65536 → lo < 65536 →
  is_high_surrogate hi = true → is_low_surrogate lo = true →
  scan_string (backslash_u hi ++ backslash_u lo ++ t)
  = push (join_surrogates hi lo) (scan_string t).
Proof.
  intros Hhi Hlo Hh Hl. unfold backslash_u, hex4. cbn [app].
  rewrite scan_u_unfold, decode_hex4_hex4, Hh by done.
  change ((92 =? 92) && (117 =? 117)) with true. cbv iota.
  by rewrite decode_hex4_hex4, Hl.
Qed.

(** *** Surrogate pairs *)

Lemma lor_shiftl_low a k m :
  k < 2 ^ m → N.lor (N.shiftl a m) k = a * 2 ^ m + k.
Proof.
  intros Hk.
  assert (Hdisj : N.land (N.shiftl a m) k = 0).
  { apply N.bits_inj. intros i. rewrite N.land_spec, N.bits_0.
    destruct (N.lt_ge_cases i m) as [Hi|Hi].
    - by rewrite N.shiftl_spec_low.
    - destruct (N.eq_0_gt_0_cases k) as [->|Hpos].
      + by rewrite N.bits_0, andb_false_r.
      + rewrite (N.bits_above_log2 k i), andb_false_r; [done|].
        apply N.log2_lt_pow2 in Hk; lia. }
  by rewrite <- N.lxor_lor, <- N.add_nocarry_lxor, N.shiftl_mul_pow2.
Qed.

Lemma high_of_pair n :
  n < 1048576 →
  N.lor 55296 (N.land (N.shiftr n 10) 1023) = 55296 + n / 1024.
Proof.
  intros Hn. change 1023 with (N.ones 10).
  rewrite N.land_ones, N.shiftr_div_pow2. change (2 ^ 10) with 1024.
  assert (n / 1024 < 1024) by (apply N.Div0.div_lt_upper_bound; lia).
  rewrite N.mod_small by done.
  change 55296 with (N.shiftl 54 10) at 1.
  rewrite lor_shiftl_low by done. reflexivity.
Qed.

Lemma low_of_pair n :
  N.lor 56320 (N.land n 1023) = 56320 + n mod 1024.
Proof.
  change 1023 with (N.ones 10). rewrite N.land_ones.
  change (2 ^ 10) with 1024.
  change 56320 with (N.shiftl 55 10) at 1.
  rewrite lor_shiftl_low by (apply N.mod_upper_bound; lia). reflexivity.
Qed.

Lemma join_of_pair n :
  n < 1048576 →
  join_surrogates (55296 + n / 1024) (56320 + n mod 1024) = 65536 + n.
Proof.
  intros Hn. unfold join_surrogates.
  rewrite (N.add_comm 55296), (N.add_comm 56320), !N.add_sub.
  rewrite lor_shiftl_low by (apply N.mod_upper_bound; lia).
  change (2 ^ 10) with 1024. pose proof (N.div_mod' n 1024). lia.
Qed.

(** *** The scanner inverts the encoder *)

Lemma scan_escape_char c t :
  scalar c →
  scan_string (escape_char c ++ t) = push c (scan_string t).
Proof.
  intros [Hmax Hsur]. unfold escape_char.
  repeat match goal with
  | |- context [if ?c =? ?k then _ else _] =>
      destruct (N.eqb_spec c k) as [->|?]; [reflexivity|]
  end.
  destruct (N.leb_spec 32 c); cbn [andb].
  - destruct (N.leb_spec c 126).
    + by apply scan_plain.
    + destruct (N.ltb_spec c 65536).
      * apply scan_u; [done|]. unfold is_high_surrogate.
        destruct (N.leb_spec 55296 c); [|done].
        cbn [andb]. apply N.leb_gt. lia.
      * remember (c - 65536) as v eqn:Hv. assert (Hv' : v < 1048576) by lia.
        rewrite high_of_pair, low_of_pair, <- app_assoc by done.
        pose proof (N.mod_upper_bound v 1024 ltac:(done)) as Hlo.
        assert (Hhi : v / 1024 < 1024)
          by (apply N.Div0.div_lt_upper_bound; lia).
        rewrite scan_pair, join_of_pair by
          (try done; revert Hhi Hlo; generalize (v / 1024) (v mod 1024);
           intros; unfold is_high_surrogate, is_low_surrogate;
           n_decide; done || lia).
        f_equal. lia.
  - rewrite (proj2 (N.ltb_lt c 65536)) by lia.
    apply scan_u; [lia|]. unfold is_high_surrogate. by n_decide.
Qed.

Lemma scan_string_encode s t :
  Forall scalar s →
  scan_string (flat_map escape_char s ++ 34 :: t) = Some (s, t).
Proof.
  induction 1 as [|c s Hc _ IH]; [done|].
  cbn [flat_map]. by rewrite <- app_assoc, scan_escape_char, IH.
Qed.

(** *** Arrays of strings *)

Lemma parse_value_quote f t :
  parse_value (S f) (34 :: t) =
  match scan_string t with
  | Some (x, r) => POk (JStr x) r
  | None => PErr
  end.
Proof. reflexivity. Qed.

Lemma parse_value_encode_str f s t :
  Forall scalar s →
  parse_value (S f) (encode_str s ++ t) = POk (JStr s) t.
Proof.
  intros Hs. unfold encode_str. cbn [app].
  rewrite parse_value_quote, <- app_assoc. cbn [app].
  by rewrite scan_string_encode.
Qed.

Lemma parse_elems_unfold f s :
  parse_elems (S f) s =
  match parse_value f s with
  | POk v r =>
      match skip_ws r with
      | c :: r' =>
          if c =? 93 then POk [v] r'
          else if c =? 44 then
            match parse_elems f (skip_ws r') with
            | POk vs r'' => POk (v :: vs) r''
            | PErr => PErr
            | PFuel => PFuel
            end
          else PErr
      | [] => PErr
      end
  | PErr => PErr
  | PFuel => PFuel
  end.
Proof. reflexivity. Qed.

Lemma parse_elems_join x l f t :
  Forall (Forall scalar) (x :: l) →
  (length l < f)%nat →
  parse_elems (S f) (join_comma (map encode_str (x :: l)) ++ 93 :: t)
  = POk (map JStr (x :: l)) t.
Proof.
  revert x f. induction l as [|y l IH]; intros x f Hwf Hf.
  - apply Forall_cons in Hwf as [Hx _]. destruct f as [|f]; [simpl in Hf; lia|].
    cbn [map join_comma]. by rewrite parse_elems_unfold, parse_value_encode_str.
  - apply Forall_cons in Hwf as [Hx Hl]. destruct f as [|f]; [simpl in Hf; lia|].
    change (join_comma (map encode_str (x :: y :: l)))
      with (encode_str x ++ 44 :: 32 :: join_comma (map encode_str (y :: l))).
    rewrite <- app_assoc, parse_elems_unfold, parse_value_encode_str by done.
    cbn [app]. change (skip_ws (44 :: ?r)) with (44 :: r). cbv iota.
    change (44 =? 93) with false. change (44 =? 44) with true. cbv iota.
    change (skip_ws (32 :: ?r)) with (skip_ws r).
    assert (Hskip : ∀ r, skip_ws (join_comma (map encode_str (y :: l)) ++ r)
                         = join_comma (map encode_str (y :: l)) ++ r).
    { intros r. by destruct l. }
    rewrite Hskip, IH; [done|done|]. simpl in Hf. lia.
Qed.

Lemma length_join_comma (l : list str) :
  (length l ≤ S (length (join_comma (map encode_str l))))%nat.
Proof.
  induction l as [|x [|y l] IH]; [simpl; lia..|].
  change (join_comma (map encode_str (x :: y :: l)))
    with (encode_str x ++ 44 :: 32 :: join_comma (map encode_str (y :: l))).
  rewrite length_app. simpl in *. lia.
Qed.

(** Decoding what the encoder wrote for a list of strings of Unicode
    scalar values gives the list back. *)
Lemma loads_dump_strs l :
  Forall (Forall scalar) l →
  loads (dump_strs l) = Some (JArr (map JStr l)).
Proof.
  intros Hwf. unfold loads, dump_strs.
  change (skip_ws (91 :: ?r)) with (91 :: r).
  destruct l as [|x l]; [reflexivity|].
  pose proof (length_join_comma (x :: l)) as Hlen.
  remember (join_comma (map encode_str (x :: l))) as body eqn:Hbody.
  unfold fuel_for. cbn [length]. rewrite length_app. cbn [length].
  assert (Hfuel : ∃ k, (2 * S (length body + 1) + 2 = S (S k)
                        ∧ length l < k)%nat).
  { exists (2 * length body + 4)%nat. simpl in Hlen. lia. }
  destruct Hfuel as (k & -> & Hk).
  assert (Hhead : ∃ r, body ++ [93] = 34 :: r).
  { subst body. destruct l; eexists; reflexivity. }
  destruct Hhead as [r Hr].
  change (parse_value (S ?f) (91 :: ?t))
    with (match skip_ws t with
          | c' :: r =>
              if c' =? 93 then POk (JArr []) r
              else match parse_elems f (c' :: r) with
                   | POk vs r' => POk (JArr vs) r'
                   | PErr => PErr
                   | PFuel => PFuel
                   end
          | [] => PErr
          end).
  rewrite Hr. change (skip_ws (34 :: r)) with (34 :: r). cbv iota.
  change (34 =? 93) with false. cbv iota.
  by rewrite <- Hr, Hbody, parse_elems_join.
Qed.

Lemma strip_dump_strs l : Str.strip (dump_strs l) = dump_strs l.
Proof.
  unfold Str.strip, Str.rstrip, dump_strs.
  change (Str.lstrip (91 :: ?r)) with (91 :: r).
  rewrite app_comm_cons, rev_app_distr.
  change (Str.lstrip (rev [93] ++ ?r)) with (rev [93] ++ r).
  by rewrite <- rev_app_distr, rev_involutive.
Qed.
(** *** The decoder never runs out of fuel *)

Lemma skip_ws_length s : (length (skip_ws s) ≤ length s)%nat.
Proof.
  induction s as [|c t IH]; [done|]. cbn [skip_ws].
  destruct (is_ws c); cbn [length]; lia.
Qed.

Lemma push_inv c r x rest :
  push c r = Some (x, rest) → ∃ x', r = Some (x', rest).
Proof. destruct r as [[x' rest']|]; [|done]. intros [= _ <-]. eauto. Qed.

Lemma scan_string_shrinks s x r :
  scan_string s = Some (x, r) → (length r < length s)%nat.
Proof.
  remember (length s) as n eqn:Hn. revert s x r Hn.
  induction n as [n IH] using lt_wf_ind. intros s x r -> Hs.
  assert (Hrec : ∀ c t x', push c (scan_string t) = Some (x', r) →
                           (length t < length s)%nat →
                           (length r < length s)%nat).
  { intros c t x' [x'' Hp]%push_inv Hlt.
    specialize (IH _ Hlt t x'' r eq_refl Hp). lia. }
  destruct s as [|c t]; [done|]. cbn [scan_string] in Hs.
  repeat case_match; simplify_eq; cbn [length] in *;
    try lia; try (eapply Hrec; [eassumption|cbn [length]; lia]).
Qed.

Lemma span_digits_length s d r :
  span_digits s = (d, r) → (length r ≤ length s)%nat.
Proof.
  revert d r. induction s as [|c t IH]; intros d r; cbn [span_digits].
  { by intros [= <- <-]. }
  destruct (is_digit c); [|intros [= <- <-]; done].
  destruct (span_digits t) as [d' r'] eqn:Ht. intros [= <- <-].
  specialize (IH _ _ eq_refl). cbn [length]. lia.
Qed.

Lemma scan_number_shrinks s n r :
  scan_number s = Some (n, r) → (length r < length s)%nat.
Proof.
  unfold scan_number, scan_int, scan_frac, scan_exp. intros H.
  repeat case_match; simplify_eq;
    repeat match goal with
    | H : span_digits _ = _ |- _ => apply span_digits_length in H
    end; cbn [length] in *; lia.
Qed.

Lemma startswith_length p s :
  Str.startswith p s = true → (length p ≤ length s)%nat.
Proof.
  revert s. induction p as [|a p IH]; intros [|b s]; cbn; try done; try lia.
  intros [_ H]%andb_prop. apply IH in H. lia.
Qed.

Lemma strip_prefix_shrinks p s r :
  strip_prefix p s = Some r → p ≠ [] → (length r < length s)%nat.
Proof.
  unfold strip_prefix. destruct (Str.startswith p s) eqn:H; [|done].
  intros [= <-] Hp. apply startswith_length in H. rewrite length_drop.
  destruct p; [done|]. cbn [length] in *. lia.
Qed.

Lemma scan_atom_shrinks s v r :
  scan_atom s = Some (v, r) → (length r < length s)%nat.
Proof.
  unfold scan_atom. intros H.
  repeat case_match; simplify_eq;
    try (by eapply scan_number_shrinks);
    by eapply strip_prefix_shrinks.
Qed.

Lemma parse_value_unfold f s :
  parse_value (S f) s =
  match s with
  | [] => PErr
  | c :: t =>
      if c =? 34 then
        match scan_string t with
        | Some (x, r) => POk (JStr x) r
        | None => PErr
        end
      else if c =? 123 then
        match skip_ws t with
        | c' :: r =>
            if c' =? 125 then POk (JObj []) r
            else
              match parse_members f (c' :: r) with
              | POk ms r' => POk (JObj ms) r'
              | PErr => PErr
              | PFuel => PFuel
              end
        | [] => PErr
        end
      else if c =? 91 then
        match skip_ws t with
        | c' :: r =>
            if c' =? 93 then POk (JArr []) r
            else
              match parse_elems f (c' :: r) with
              | POk vs r' => POk (JArr vs) r'
              | PErr => PErr
              | PFuel => PFuel
              end
        | [] => PErr
        end
      else
        match scan_atom s with
        | Some (v, r) => POk v r
        | None => PErr
        end
  end.
Proof. reflexivity. Qed.

Lemma parse_members_unfold f s :
  parse_members (S f) s =
  match s with
  | q :: t =>
      if q =? 34 then
        match scan_string t with
        | None => PErr
        | Some (k, r) =>
            match skip_ws r with
            | colon :: r1 =>
                if colon =? 58 then
                  match parse_value f (skip_ws r1) with
                  | POk v r2 =>
                      match skip_ws r2 with
                      | c :: r3 =>
                          if c =? 125 then POk [(k, v)] r3
                          else if c =? 44 then
                            match parse_members f (skip_ws r3) with
                            | POk ms r4 => POk ((k, v) :: ms) r4
                            | PErr => PErr
                            | PFuel => PFuel
                            end
                          else PErr
                      | [] => PErr
                      end
                  | PErr => PErr
                  | PFuel => PFuel
                  end
                else PErr
            | [] => PErr
            end
        end
      else PErr
  | [] => PErr
  end.
Proof. reflexivity. Qed.

(** Facts about lengths that a scan has established, for [lia]. *)
Ltac lengths :=
  repeat match goal with
  | H : scan_string _ = Some _ |- _ => apply scan_string_shrinks in H
  | H : scan_atom _ = Some _ |- _ => apply scan_atom_shrinks in H
  | H : skip_ws ?t = _ :: _ |- _ =>
      let L := fresh in
      pose proof (skip_ws_length t) as L; rewrite H in L; clear H
  | H : context [length (skip_ws ?t)] |- _ =>
      lazymatch goal with
      | _ : (length (skip_ws t) ≤ length t)%nat |- _ => fail
      | _ => pose proof (skip_ws_length t)
      end
  | |- context [length (skip_ws ?t)] =>
      lazymatch goal with
      | _ : (length (skip_ws t) ≤ length t)%nat |- _ => fail
      | _ => pose proof (skip_ws_length t)
      end
  end;
  cbn [length] in *.

(** Every scan that succeeds has consumed some of the text. *)
Lemma parse_shrinks f :
  (∀ s v r, parse_value f s = POk v r → (length r < length s)%nat)
  ∧ (∀ s vs r, parse_elems f s = POk vs r → (length r < length s)%nat)
  ∧ (∀ s ms r, parse_members f s = POk ms r → (length r < length s)%nat).
Proof.
  induction f as [|f (IHv & IHe & IHm)]; [done|]. split_and!.
  - intros s v r. rewrite parse_value_unfold. intros H.
    repeat case_match; simplify_eq;
      repeat match goal with
      | H : parse_elems f _ = POk _ _ |- _ => apply IHe in H
      | H : parse_members f _ = POk _ _ |- _ => apply IHm in H
      end; lengths; lia.
  - intros s vs r. rewrite parse_elems_unfold. intros H.
    repeat case_match; simplify_eq;
      repeat match goal with
      | H : parse_value f _ = POk _ _ |- _ => apply IHv in H
      | H : parse_elems f _ = POk _ _ |- _ => apply IHe in H
      end; lengths; lia.
  - intros s ms r. rewrite parse_members_unfold. intros H.
    repeat case_match; simplify_eq;
      repeat match goal with
      | H : parse_value f _ = POk _ _ |- _ => apply IHv in H
      | H : parse_members f _ = POk _ _ |- _ => apply IHm in H
      end; lengths; lia.
Qed.

(** With twice the length of the text and one more in fuel, the scan of a
    value does not run out of it. *)
Lemma parse_fuel f :
  (∀ s, (2 * length s + 1 ≤ f)%nat → parse_value f s ≠ PFuel)
  ∧ (∀ s, (2 * length s + 2 ≤ f)%nat → parse_elems f s ≠ PFuel)
  ∧ (∀ s, (2 * length s + 2 ≤ f)%nat → parse_members f s ≠ PFuel).
Proof.
  induction f as [|f (IHv & IHe & IHm)].
  { split_and!; intros s Hs; lia. }
  destruct (parse_shrinks f) as (Sv & Se & Sm).
  split_and!.
  - intros s Hs. rewrite parse_value_unfold. intros H.
    repeat case_match; simplify_eq;
      match goal with
      | H : parse_elems f ?x = PFuel |- _ => apply (IHe x); [|done]
      | H : parse_members f ?x = PFuel |- _ => apply (IHm x); [|done]
      end; lengths; lia.
  - intros s Hs. rewrite parse_elems_unfold. intros H.
    repeat case_match; simplify_eq;
      repeat match goal with
      | H : parse_value f _ = POk _ _ |- _ => apply Sv in H
      end;
      match goal with
      | H : parse_value f ?x = PFuel |- _ => apply (IHv x); [|done]
      | H : parse_elems f ?x = PFuel |- _ => apply (IHe x); [|done]
      end; lengths; lia.
  - intros s Hs. rewrite parse_members_unfold. intros H.
    repeat case_match; simplify_eq;
      repeat match goal with
      | H : parse_value f _ = POk _ _ |- _ => apply Sv in H
      end;
      match goal with
      | H : parse_value f ?x = PFuel |- _ => apply (IHv x); [|done]
      | H : parse_members f ?x = PFuel |- _ => apply (IHm x); [|done]
      end; lengths; lia.
Qed.

(** [loads] returns [None] for a text that is not JSON and for no other
    reason. *)
Lemma loads_fuel s : parse_value (fuel_for s) (skip_ws s) ≠ PFuel.
Proof.
  apply parse_fuel. pose proof (skip_ws_length s). unfold fuel_for. lia.
Qed.

Lemma loads_error s :
  loads s = None →
  parse_value (fuel_for s) (skip_ws s) = PErr
  ∨ ∃ v r, parse_value (fuel_for s) (skip_ws s) = POk v r ∧ skip_ws r ≠ [].
Proof.
  unfold loads. pose proof (loads_fuel s) as Hfuel.
  destruct (parse_value (fuel_for s) (skip_ws s)) as [v r| |]; [|by left|done].
  destruct (skip_ws r) eqn:Hr; [done|]. intros _. right. exists v, r.
  by rewrite Hr.
Qed.
End JsonFacts.

(** ** The order of strings and [sorted] *)

Module StrFacts.
Import Str.

Lemma leb_cons x a y b :
  leb (x :: a) (y :: b) = (x <? y) || ((x =? y) && leb a b).
Proof. reflexivity. Qed.

#[global] Instance le_total : Total le.
Proof.
  intros a. unfold le. induction a as [|x a IH]; intros [|y b]; auto.
  rewrite !leb_cons.
  destruct (N.ltb_spec x y), (N.ltb_spec y x); cbn [orb]; auto; try lia.
  assert (x = y) as -> by lia. rewrite N.eqb_refl. apply IH.
Qed.

#[global] Instance le_trans : Transitive le.
Proof.
  intros a. unfold le.
  induction a as [|x a IH]; intros [|y b] [|z c]; try done.
  rewrite !leb_cons. intros Hab Hbc.
  destruct (N.ltb_spec x y), (N.ltb_spec y z), (N.ltb_spec x z);
    try done; try lia; simpl in *.
  - destruct (N.eqb_spec y z); [lia|done].
  - destruct (N.eqb_spec x y); [lia|done].
  - destruct (N.eqb_spec x y) as [->|]; [|done].
    destruct (N.eqb_spec y z) as [->|]; [|done].
    simpl in *. eauto.
Qed.

Lemma sorted_perm l : sorted l ≡ₚ l.
Proof. apply merge_sort_Permutation. Qed.

Lemma sorted_ascending l : StronglySorted le (sorted l).
Proof. apply StronglySorted_merge_sort; apply _. Qed.

(** Without duplicates, the order of a sorted list is strict. *)
Lemma sorted_strict l : NoDup l → StronglySorted lt (sorted l).
Proof.
  intros Hnd. rewrite <- sorted_perm in Hnd.
  pose proof (sorted_ascending l) as Hs.
  induction Hs as [|x l' Hs IH Hx]; [constructor|].
  apply NoDup_cons in Hnd as [Hnotin Hnd].
  constructor; [by apply IH|].
  rewrite Forall_forall in Hx |- *. intros y Hy. split; [by apply Hx|].
  intros ->. done.
Qed.
End StrFacts.

(** ** Reasoning about computations *)


Lemma prepend_prepend {A} tr1 tr2 (o : outcome A) :
  prepend tr1 (prepend tr2 o) = prepend (tr1 ++ tr2) o.
Proof. unfold prepend. simpl. by rewrite app_assoc. Qed.

Lemma print_run {B} msg (k : unit → M B) fs :
  (print msg ≫= k) fs = prepend [EPrint msg] (k tt fs).
Proof. reflexivity. Qed.

Lemma emit_run {B} e (k : unit → M B) fs :
  (emit e ≫= k) fs = prepend [e] (k tt fs).
Proof. reflexivity. Qed.

Section Traces.
Context {A B : Type}.

Lemma bind_unfold (m : M A) (k : A → M B) fs :
  (m ≫= k) fs =
  match result (m fs) with
  | Ret a =>
      {| result := result (k a (files (m fs)));
         files := files (k a (files (m fs)));
         events := events (m fs) ++ events (k a (files (m fs))) |}
  | Raise e =>
      {| result := Raise e; files := files (m fs); events := events (m fs) |}
  end.
Proof. reflexivity. Qed.

(** The same, with the events of the first part put in front of the
    outcome of the second. *)
Lemma bind_run (m : M A) (k : A → M B) fs :
  (m ≫= k) fs =
  match result (m fs) with
  | Ret a => prepend (events (m fs)) (k a (files (m fs)))
  | Raise e =>
      {| result := Raise e; files := files (m fs); events := events (m fs) |}
  end.
Proof. reflexivity. Qed.

Lemma bind_ret (m : M A) (k : A → M B) fs a :
  result (m fs) = Ret a →
  (m ≫= k) fs =
    {| result := result (k a (files (m fs)));
       files := files (k a (files (m fs)));
       events := events (m fs) ++ events (k a (files (m fs))) |}.
Proof. intros H. by rewrite bind_unfold, H. Qed.

Lemma bind_raise (m : M A) (k : A → M B) fs e :
  result (m fs) = Raise e →
  (m ≫= k) fs =
    {| result := Raise e; files := files (m fs); events := events (m fs) |}.
Proof. intros H. by rewrite bind_unfold, H. Qed.
End Traces.


Section TracedFrames.
Context {A B : Type} (P : event → Prop) (Q : str → Prop).

Lemma traced_ret (a : A) : traced P (mret a).
Proof. intros fs. constructor. Qed.

Lemma traced_raise e : traced P (raise (A:=A) e).
Proof. intros fs. constructor. Qed.

Lemma traced_emit e : P e → traced P (emit e).
Proof. intros He fs. by repeat constructor. Qed.

Lemma traced_lookup path : traced P (lookup_file path).
Proof. intros fs. constructor. Qed.

Lemma traced_read path : traced P (read_file path).
Proof. intros fs. constructor. Qed.

Lemma traced_modify f : traced P (modify_files f).
Proof. intros fs. constructor. Qed.

Lemma traced_bind (m : M A) (k : A → M B) :
  traced P m → (∀ a, traced P (k a)) → traced P (m ≫= k).
Proof.
  intros Hm Hk fs. rewrite bind_unfold.
  destruct (result (m fs)); simpl; [|done].
  apply Forall_app; split; [apply Hm|apply Hk].
Qed.

Lemma traced_catch (m : M A) (h : exn → M A) :
  traced P m → (∀ e, traced P (h e)) → traced P (catch m h).
Proof.
  intros Hm Hh fs. unfold catch.
  destruct (result (m fs)); simpl; [done|].
  apply Forall_app; split; [apply Hm|apply Hh].
Qed.

Lemma frames_ret (a : A) : frames Q (mret a).
Proof. by intros fs q _. Qed.

Lemma frames_raise e : frames Q (raise (A:=A) e).
Proof. by intros fs q _. Qed.

Lemma frames_emit e : frames Q (emit e).
Proof. by intros fs q _. Qed.

Lemma frames_lookup path : frames Q (lookup_file path).
Proof. by intros fs q _. Qed.

Lemma frames_read path : frames Q (read_file path).
Proof. by intros fs q _. Qed.

Lemma frames_modify f :
  (∀ fs q, ¬ Q q → f fs !! q = fs !! q) → frames Q (modify_files f).
Proof. intros Hf fs q Hq. by apply Hf. Qed.

Lemma frames_bind (m : M A) (k : A → M B) :
  frames Q m → (∀ a, frames Q (k a)) → frames Q (m ≫= k).
Proof.
  intros Hm Hk fs q Hq. rewrite bind_unfold.
  destruct (result (m fs)); simpl; [|by apply Hm].
  rewrite Hk by done. by apply Hm.
Qed.

Lemma frames_catch (m : M A) (h : exn → M A) :
  frames Q m → (∀ e, frames Q (h e)) → frames Q (catch m h).
Proof.
  intros Hm Hh fs q Hq. unfold catch.
  destruct (result (m fs)); simpl; [by apply Hm|].
  rewrite Hh by done. by apply Hm.
Qed.
End TracedFrames.

(** *** Running a computation step by step *)


Section Wp.
Context {A B : Type}.

Lemma wp_ret (a : A) (fs : FS) Q : Q (Ret a) fs [] → wp (mret a) fs Q.
Proof. done. Qed.

Lemma wp_raise (e : exn) (fs : FS) (Q : res A → FS → list event → Prop) :
  Q (Raise e) fs [] → wp (raise e) fs Q.
Proof. done. Qed.

Lemma wp_emit (e : event) (fs : FS) Q : Q (Ret tt) fs [e] → wp (emit e) fs Q.
Proof. done. Qed.

Lemma wp_lookup (path : list N) (fs : FS) Q :
  Q (Ret (fs !! path)) fs [] → wp (lookup_file path) fs Q.
Proof. done. Qed.

Lemma wp_read (path : list N) (fs : FS) Q :
  Q (Ret (default [] (fs !! path))) fs [] → wp (read_file path) fs Q.
Proof. done. Qed.

Lemma wp_modify (f : FS → FS) (fs : FS) Q : Q (Ret tt) (f fs) [] → wp (modify_files f) fs Q.
Proof. done. Qed.

Lemma wp_bind (m : M A) (k : A → M B) (fs : FS) Q :
  wp m fs (λ r fs1 tr,
    match r with
    | Ret a => wp (k a) fs1 (λ r' fs2 tr', Q r' fs2 (tr ++ tr'))
    | Raise e => Q (Raise e) fs1 tr
    end) →
  wp (m ≫= k) fs Q.
Proof.
  unfold wp. rewrite bind_unfold. destruct (result (m fs)); simpl; auto.
Qed.

Lemma wp_catch (m : M A) (h : exn → M A) (fs : FS) Q :
  wp m fs (λ r fs1 tr,
    match r with
    | Ret a => Q (Ret a) fs1 tr
    | Raise e => wp (h e) fs1 (λ r' fs2 tr', Q r' fs2 (tr ++ tr'))
    end) →
  wp (catch m h) fs Q.
Proof.
  unfold wp, catch. destruct (result (m fs)) eqn:E; simpl; rewrite ?E; auto.
Qed.
End Wp.

(** Takes a computation apart along its binds, handlers and case
    distinctions; what is left are the side conditions of its events and
    of its changes to files. *)
Ltac walk :=
  repeat match goal with
  | |- traced _ (_ ≫= _) => apply traced_bind; [|intros ?]
  | |- traced _ (catch _ _) => apply traced_catch; [|intros ?]
  | |- traced _ (mret _) => apply traced_ret
  | |- traced _ (raise _) => apply traced_raise
  | |- traced _ (lookup_file _) => apply traced_lookup
  | |- traced _ (read_file _) => apply traced_read
  | |- traced _ (modify_files _) => apply traced_modify
  | |- traced _ (emit _) => apply traced_emit
  | |- traced _ (print _) => apply traced_emit
  | |- frames _ (_ ≫= _) => apply frames_bind; [|intros ?]
  | |- frames _ (catch _ _) => apply frames_catch; [|intros ?]
  | |- frames _ (mret _) => apply frames_ret
  | |- frames _ (raise _) => apply frames_raise
  | |- frames _ (lookup_file _) => apply frames_lookup
  | |- frames _ (read_file _) => apply frames_read
  | |- frames _ (emit _) => apply frames_emit
  | |- frames _ (print _) => apply frames_emit
  | |- frames _ (modify_files _) => apply frames_modify
  | |- traced _ (match ?x with _ => _ end) => destruct x eqn:?
  | |- frames _ (match ?x with _ => _ end) => destruct x eqn:?
  | |- _ => progress cbv beta zeta
  end.

(** ** The seen-state store *)

Section StoreFacts.


Lemma load_missing fs :
  fs !! SEEN_FILE = None →
  load_seen_photos fs =
    {| result := Ret ∅; files := fs; events := [EExists SEEN_FILE] |}.
Proof.
  intros H. unfold load_seen_photos. rewrite !bind_unfold.
  cbn [emit lookup_file result files events]. by rewrite H.
Qed.

Lemma load_blank fs file_text :
  fs !! SEEN_FILE = Some file_text → Str.strip file_text = [] →
  load_seen_photos fs =
    {| result := Ret ∅; files := fs;
       events := [EExists SEEN_FILE; ERead SEEN_FILE] |}.
Proof.
  intros H Hb. unfold load_seen_photos. rewrite !bind_unfold.
  cbn [emit lookup_file result files events]. rewrite H, bind_unfold.
  cbn [emit result files events]. by rewrite Hb.
Qed.

Lemma load_decoded fs file_text :
  fs !! SEEN_FILE = Some file_text → Str.strip file_text ≠ [] →
  load_seen_photos fs =
    match Json.loads (Str.strip file_text) with
    | None =>
        {| result := Ret ∅; files := fs;
           events := [EExists SEEN_FILE; ERead SEEN_FILE;
                      EPrint WarnInvalidJson] |}
    | Some j =>
        {| result := match set_of_json j with
                     | Some seen => Ret seen
                     | None => Raise TypeError
                     end;
           files := fs;
           events := [EExists SEEN_FILE; ERead SEEN_FILE] |}
    end.
Proof.
  intros H Hb. unfold load_seen_photos. rewrite !bind_unfold.
  cbn [emit lookup_file result files events]. rewrite H, bind_unfold.
  cbn [emit result files events].
  destruct (Str.strip file_text) as [|c t] eqn:Hs; [done|].
  destruct (Json.loads (c :: t)) as [j|]; [|reflexivity].
  by destruct (set_of_json j).
Qed.

(** Loading looks at the file system and leaves it as it is. *)
Lemma load_files fs : files (load_seen_photos fs) = fs.
Proof.
  destruct (fs !! SEEN_FILE) as [file_text|] eqn:H.
  - destruct (decide (Str.strip file_text = [])) as [Hb|Hb].
    + by rewrite (load_blank _ _ H Hb).
    + rewrite (load_decoded _ _ H Hb). by destruct (Json.loads _).
  - by rewrite load_missing.
Qed.

Lemma load_events fs :
  Forall (λ e, e = EExists SEEN_FILE ∨ e = ERead SEEN_FILE
               ∨ e = EPrint WarnInvalidJson)
         (events (load_seen_photos fs)).
Proof.
  destruct (fs !! SEEN_FILE) as [file_text|] eqn:H.
  - destruct (decide (Str.strip file_text = [])) as [Hb|Hb].
    + rewrite (load_blank _ _ H Hb). repeat (constructor; [by auto|]). done.
    + rewrite (load_decoded _ _ H Hb).
      destruct (Json.loads _); repeat (constructor; [by auto|]); done.
  - rewrite load_missing by done. repeat (constructor; [by auto|]). done.
Qed.

Lemma set_of_json_strs l :
  set_of_json (Json.JArr (map Json.JStr l)) = Some (list_to_set l).
Proof.
  unfold set_of_json.
  replace (forallb _ (map Json.JStr l)) with true
    by (induction l; simpl; auto).
  do 2 f_equal. induction l; simpl; by f_equal.
Qed.

Lemma save_run (env : Env) (x : gset (list N)) (fs : FS) :
  save_seen_photos env x fs =
    {| result := Ret tt;
       files := <[SEEN_FILE := Json.dump_strs (set_iter env x)]> fs;
       events := [EWrite SEEN_FILE (Json.dump_strs (set_iter env x))] |}.
Proof. reflexivity. Qed.

Lemma set_iter_elem (env : Env) (x : gset (list N)) (u : list N) :
  set_iter_ok env → u ∈ set_iter env x ↔ u ∈ x.
Proof. intros Hok. by rewrite (Hok x), elem_of_elements. Qed.

(** The file that holds a dump of [x] loads as [x]. *)
Lemma load_dump (env : Env) (x : gset (list N)) (fs : FS) :
  set_iter_ok env → wf_set x →
  fs !! SEEN_FILE = Some (Json.dump_strs (set_iter env x)) →
  load_seen_photos fs =
    {| result := Ret x; files := fs;
       events := [EExists SEEN_FILE; ERead SEEN_FILE] |}.
Proof.
  intros Hok Hwf Hfs.
  rewrite (load_decoded _ _ Hfs);
    rewrite JsonFacts.strip_dump_strs; [|done].
  rewrite JsonFacts.loads_dump_strs, set_of_json_strs.
  - f_equal. f_equal. apply set_eq. intros u.
    by rewrite elem_of_list_to_set, set_iter_elem.
  - apply Forall_forall. intros u Hu. apply Hwf. by apply set_iter_elem in Hu.
Qed.




(** C6.  Saving a well-formed set [x] replaces the state file, whatever it
    held, by the dump of [x], and loading after that returns exactly [x]:
    an identifier that is not in [x] is not in the loaded set either, also
    when the file recorded it before. *)
Theorem save_then_load_roundtrip (env : Env) (x : gset (list N)) (fs : FS) :
  set_iter_ok env → wf_set x →
  let saved := save_seen_photos env x fs in
  result saved = Ret tt
  ∧ files saved = <[SEEN_FILE := Json.dump_strs (set_iter env x)]> fs
  ∧ result (load_seen_photos (files saved)) = Ret x
  ∧ ∀ u seen, u ∉ x →
      result (load_seen_photos (files saved)) = Ret seen → u ∉ seen.
Proof.
  intros Hok Hwf saved. subst saved. rewrite save_run. cbn [result files].
  assert (Hload : result (load_seen_photos
            (<[SEEN_FILE := Json.dump_strs (set_iter env x)]> fs)) = Ret x).
  { rewrite (load_dump env x); [done..|]. apply lookup_insert_eq. }
  split_and!; [done..|].
  intros u seen Hu. rewrite Hload. by intros [= <-].
Qed.
End StoreFacts.

Section ProgramFacts.
Variable cfg : Config.
Variable env : Env.

Lemma temp_path_not_seen_file url : temp_path env url ≠ SEEN_FILE.
Proof.
  intros H. apply (f_equal last) in H. revert H. unfold temp_path.
  change (py ".jpg") with ([46; 106; 112] ++ [103]).
  by rewrite app_assoc, last_snoc.
Qed.


Lemma write_chunks_traced P path chunks :
  (∀ chunk, P (EAppend path chunk)) → traced P (write_chunks path chunks).
Proof.
  intros HP.
  induction chunks as [|[|c chunk] rest IH]; cbn [write_chunks]; walk; auto.
Qed.

Lemma write_chunks_frames path chunks :
  frames (eq path) (write_chunks path chunks).
Proof.
  induction chunks as [|[|c chunk] rest IH]; cbn [write_chunks]; walk; auto.
  intros fs q Hq. by rewrite lookup_insert_ne.
Qed.

Lemma write_chunks_result path chunks fs :
  result (write_chunks path chunks fs) = Ret tt.
Proof.
  revert fs.
  induction chunks as [|[|c chunk] rest IH]; intros fs;
    cbn [write_chunks]; auto.
  rewrite !bind_unfold. cbn [result files emit modify_files]. apply IH.
Qed.


Lemma post_to_slack_events url fs :
  ∃ tr, events (post_to_slack cfg env url fs) = ECall url :: tr
        ∧ Forall (dispatch_event cfg env url) tr.
Proof.
  unfold post_to_slack. rewrite bind_unfold. cbn [emit result files events app].
  match goal with
  | |- context [events (?m fs)] =>
      assert (Hm : traced (dispatch_event cfg env url) m)
  end.
  { unfold tier1, upload, extract_metadata, webhook_fallback.
    walk; try done.
    apply write_chunks_traced. intros; reflexivity. }
  eexists. split; [reflexivity|apply Hm].
Qed.

Lemma post_to_slack_frames url :
  frames (eq (temp_path env url)) (post_to_slack cfg env url).
Proof.
  unfold post_to_slack, tier1, upload, extract_metadata, webhook_fallback.
  walk; try apply write_chunks_frames;
    intros fs q Hq; by rewrite ?lookup_insert_ne, ?lookup_delete_ne.
Qed.

Lemma deliveries_app tr1 tr2 :
  deliveries (tr1 ++ tr2) = deliveries tr1 ++ deliveries tr2.
Proof. apply omap_app. Qed.

Lemma deliveries_quiet P tr :
  (∀ u, ¬ P (ECall u)) → Forall P tr → deliveries tr = [].
Proof.
  intros HP. induction 1 as [|e tr He _ IH]; [done|].
  destruct e; try apply IH. by destruct (HP url).
Qed.

Lemma post_to_slack_deliveries url fs :
  deliveries (events (post_to_slack cfg env url fs)) = [url].
Proof.
  destruct (post_to_slack_events url fs) as (tr & -> & Htr).
  change (deliveries (ECall url :: tr)) with (url :: deliveries tr).
  rewrite (deliveries_quiet (dispatch_event cfg env url)); [done|..|done].
  intros u. cbn. tauto.
Qed.

Lemma post_to_slack_seen_file url fs :
  files (post_to_slack cfg env url fs) !! SEEN_FILE = fs !! SEEN_FILE.
Proof.
  apply post_to_slack_frames. intros H. by apply (temp_path_not_seen_file url).
Qed.

(** A delivery leaves the state file alone: none of its events names it. *)
Lemma post_to_slack_quiet url fs :
  Forall (λ e, ¬ touches SEEN_FILE e) (events (post_to_slack cfg env url fs)).
Proof.
  destruct (post_to_slack_events url fs) as (tr & -> & Htr).
  constructor; [by intros [=]|].
  eapply Forall_impl; [apply Htr|]. intros e He Ht. unfold touches in Ht.
  destruct e; simpl in *; try done;
    apply (temp_path_not_seen_file url); congruence.
Qed.

Lemma touches_of_mutates p e : mutates p e → touches p e.
Proof. destruct e; simpl; try done; by intros ->. Qed.

(** *** The delivery loop *)

Lemma post_all_cons url rest n fs :
  post_all cfg env (url :: rest) n fs =
  (post_to_slack cfg env url ≫= λ ok : bool,
     post_all cfg env rest (if ok then S n else n)) fs.
Proof. reflexivity. Qed.

Lemma post_all_quiet urls n fs :
  Forall (λ e, ¬ touches SEEN_FILE e) (events (post_all cfg env urls n fs)).
Proof.
  revert n fs. induction urls as [|url rest IH]; intros n fs; [constructor|].
  rewrite post_all_cons, bind_unfold.
  destruct (result (post_to_slack cfg env url fs)); cbn [events];
    [apply Forall_app; split; [|apply IH]|]; apply post_to_slack_quiet.
Qed.

Lemma post_all_seen_file urls n fs :
  files (post_all cfg env urls n fs) !! SEEN_FILE = fs !! SEEN_FILE.
Proof.
  revert n fs. induction urls as [|url rest IH]; intros n fs; [done|].
  rewrite post_all_cons, bind_unfold.
  destruct (result (post_to_slack cfg env url fs)); cbn [files];
    rewrite ?IH; apply post_to_slack_seen_file.
Qed.

(** The loop attempts the identifiers in the order of the list, each
    once, and all of them unless a delivery raises. *)
Lemma post_all_deliveries urls n fs :
  let o := post_all cfg env urls n fs in
  deliveries (events o) `prefix_of` urls
  ∧ (∀ count, result o = Ret count → deliveries (events o) = urls).
Proof.
  revert n fs. induction urls as [|url rest IH]; intros n fs; cbv zeta.
  { split; [done|]. by intros. }
  rewrite post_all_cons, bind_unfold.
  destruct (result (post_to_slack cfg env url fs)) as [ok|e]; cbn [events result].
  - rewrite deliveries_app, post_to_slack_deliveries.
    destruct (IH (if ok then S n else n) (files (post_to_slack cfg env url fs)))
      as [Hpre Hall].
    split; [by apply prefix_cons|].
    intros count Hc. cbn [app]. f_equal. by eapply Hall.
  - rewrite post_to_slack_deliveries. split; [|done].
    by apply prefix_cons, prefix_nil.
Qed.

Lemma post_all_count_bounds urls n fs count :
  result (post_all cfg env urls n fs) = Ret count → (n ≤ count)%nat.
Proof.
  revert n fs. induction urls as [|url rest IH]; intros n fs.
  { by intros [= ->]. }
  rewrite post_all_cons, bind_unfold.
  destruct (result (post_to_slack cfg env url fs)) as [ok|e]; cbn [result];
    [|done].
  intros H%IH. destruct ok; lia.
Qed.

(** *** The scraper *)

Lemma run_scraper_files fs : files (run_scraper cfg env fs) = fs.
Proof.
  unfold run_scraper. rewrite !bind_unfold. cbn [print emit result files].
  by destruct (page_img_srcs env (ALBUM_URL cfg)).
Qed.

Lemma run_scraper_events fs :
  Forall (λ e, is_print e ∨ e = EScrape (ALBUM_URL cfg))
         (events (run_scraper cfg env fs)).
Proof.
  assert (H : traced (λ e, is_print e ∨ e = EScrape (ALBUM_URL cfg))
                     (run_scraper cfg env)).
  { unfold run_scraper. walk; simpl; auto. }
  apply H.
Qed.


(** *** The orchestrator *)

Lemma deliver_new_nothing seen current fs :
  current ∖ seen = ∅ →
  deliver_new cfg env seen current fs =
    {| result := Ret tt; files := fs; events := [EPrint MsgNoNew] |}.
Proof.
  intros H. unfold deliver_new.
  by rewrite bool_decide_eq_false_2 by (by intros []).
Qed.

Lemma deliver_new_run seen current fs :
  current ∖ seen ≠ ∅ →
  let loop := post_all cfg env (Str.sorted (elements (current ∖ seen))) 0 fs in
  let found := EPrint (MsgFoundNew (size (current ∖ seen))) in
  let data := Json.dump_strs (set_iter env current) in
  deliver_new cfg env seen current fs =
    match result loop with
    | Ret success_count =>
        if bool_decide (0 < success_count)%nat then
          {| result := Ret tt;
             files := <[SEEN_FILE := data]> (files loop);
             events := found :: events loop ++
                       [EWrite SEEN_FILE data; EPrint (MsgPosted success_count)] |}
        else
          {| result := Ret tt; files := files loop;
             events := found :: events loop ++ [EPrint MsgNonePosted] |}
    | Raise e =>
        {| result := Raise e; files := files loop;
           events := found :: events loop |}
    end.
Proof.
  intros H. cbv zeta. unfold deliver_new.
  rewrite bool_decide_eq_true_2 by done.
  rewrite bind_unfold. cbn [print emit result files events].
  rewrite bind_unfold.
  destruct (result (post_all _ _ _ _ _)) as [n|e]; [|reflexivity].
  by destruct (bool_decide (0 < n)%nat).
Qed.

(** With both required settings, a run is its preamble, the load, the
    scrape and [deliver_new], in this order and as long as none raises. *)
Lemma main_run fs :
  truthy (ALBUM_URL cfg) = true → truthy (SLACK_WEBHOOK cfg) = true →
  ∃ pre, Forall is_print pre ∧
    main cfg env fs =
      let l := load_seen_photos fs in
      prepend (pre ++ events l)
        match result l with
        | Raise e => {| result := Raise e; files := fs; events := [] |}
        | Ret seen =>
            let s := run_scraper cfg env fs in
            prepend (events s)
              match result s with
              | Raise e => {| result := Raise e; files := fs; events := [] |}
              | Ret photos => deliver_new cfg env seen (list_to_set photos) fs
              end
        end.
Proof.
  intros Ha Hw. unfold main. rewrite Ha, Hw. cbn [negb].
  exists (EPrint MsgChecking ::
          if negb (truthy (SLACK_API_TOKEN cfg))
          then [EPrint WarnTokenNotSet; EPrint WarnWebhookOnly] else []).
  split.
  { constructor; [done|]. destruct (negb _); by repeat constructor. }
  cbv zeta. rewrite print_run, bind_run.
  assert (Hload : ∀ fs', fs' = fs →
    (load_seen_photos ≫= λ seen,
       run_scraper cfg env ≫= λ photos,
         deliver_new cfg env seen (list_to_set photos)) fs' =
    prepend (events (load_seen_photos fs))
      match result (load_seen_photos fs) with
      | Raise e => {| result := Raise e; files := fs; events := [] |}
      | Ret seen =>
          prepend (events (run_scraper cfg env fs))
            match result (run_scraper cfg env fs) with
            | Raise e => {| result := Raise e; files := fs; events := [] |}
            | Ret photos => deliver_new cfg env seen (list_to_set photos) fs
            end
      end).
  { intros fs' ->. rewrite bind_run, load_files.
    destruct (result (load_seen_photos fs)) as [seen|e].
    - f_equal. rewrite bind_run, run_scraper_files.
      destruct (result (run_scraper cfg env fs)); [done|].
      unfold prepend. cbn [result files events]. by rewrite app_nil_r.
    - unfold prepend. cbn [result files events].
      by rewrite app_nil_r. }
  destruct (negb (truthy (SLACK_API_TOKEN cfg)));
    cbn [result files events]; rewrite Hload by done;
    by rewrite !prepend_prepend.
Qed.

(** *** Events that leave the state file as it is *)


Lemma harmless_print tr : Forall is_print tr → Forall harmless tr.
Proof.
  intros H. eapply Forall_impl; [done|].
  intros [] He; try done. split; [simpl; tauto|discriminate].
Qed.

Lemma harmless_load fs : Forall harmless (events (load_seen_photos fs)).
Proof.
  eapply Forall_impl; [apply load_events|].
  intros e [->|[->| ->]]; (split; [simpl; tauto|discriminate]).
Qed.

Lemma harmless_scrape fs : Forall harmless (events (run_scraper cfg env fs)).
Proof.
  eapply Forall_impl; [apply run_scraper_events|].
  intros e [He| ->]; [destruct e; try done|];
    (split; [simpl; tauto|discriminate]).
Qed.

Lemma no_write_of_quiet tr :
  Forall (λ e, ¬ touches SEEN_FILE e) tr →
  Forall (λ e, ¬ mutates SEEN_FILE e) tr.
Proof.
  intros H. eapply Forall_impl; [done|].
  intros e He Hm. by apply He, touches_of_mutates.
Qed.

Lemma not_written tr data :
  Forall (λ e, ¬ mutates SEEN_FILE e) tr → EWrite SEEN_FILE data ∉ tr.
Proof.
  intros H Hin. rewrite Forall_forall in H. by apply (H _ Hin).
Qed.

(** A run with both settings whose load and scrape return goes on to
    [deliver_new]; what it did before is harmless. *)
Lemma main_delivering fs seen photos :
  truthy (ALBUM_URL cfg) = true → truthy (SLACK_WEBHOOK cfg) = true →
  result (load_seen_photos fs) = Ret seen →
  result (run_scraper cfg env fs) = Ret photos →
  ∃ pre, Forall harmless pre ∧
    main cfg env fs =
      prepend pre (deliver_new cfg env seen (list_to_set photos) fs).
Proof.
  intros Ha Hw Hl Hs.
  destruct (main_run fs Ha Hw) as (pre & Hpre & ->).
  cbv zeta. rewrite Hl, Hs, prepend_prepend.
  eexists. split; [|reflexivity].
  rewrite !Forall_app. split_and!;
    auto using harmless_print, harmless_load, harmless_scrape.
Qed.

(** The state-update policy on [deliver_new]. *)
Lemma deliver_new_policy seen current fs :
  current ∖ seen ≠ ∅ →
  let o := deliver_new cfg env seen current fs in
  let loop := post_all cfg env (Str.sorted (elements (current ∖ seen))) 0 fs in
  let data := Json.dump_strs (set_iter env current) in
  match result loop with
  | Ret success_count =>
      result o = Ret tt
      ∧ ((∃ d, EWrite SEEN_FILE d ∈ events o) ↔ (0 < success_count)%nat)
      ∧ ((0 < success_count)%nat →
           EWrite SEEN_FILE data ∈ events o
           ∧ files o !! SEEN_FILE = Some data)
      ∧ (success_count = 0%nat → files o !! SEEN_FILE = fs !! SEEN_FILE)
  | Raise e =>
      result o = Raise e
      ∧ files o !! SEEN_FILE = fs !! SEEN_FILE
      ∧ ∀ d, EWrite SEEN_FILE d ∉ events o
  end.
Proof.
  intros Hnew. cbv zeta. rewrite deliver_new_run by done. cbv zeta.
  pose proof (post_all_quiet
    (Str.sorted (elements (current ∖ seen))) 0 fs) as Hq%no_write_of_quiet.
  pose proof (post_all_seen_file
    (Str.sorted (elements (current ∖ seen))) 0 fs) as Hf.
  destruct (result (post_all _ _ _ _ _)) as [n|e].
  - case_bool_decide as Hn; cbn [result files events].
    + split_and!; [done|..].
      * split; [done|]. intros _. eexists.
        rewrite elem_of_cons, elem_of_app, !elem_of_cons. eauto.
      * intros _. split; [|apply lookup_insert_eq].
        rewrite elem_of_cons, elem_of_app, !elem_of_cons. eauto.
      * lia.
    + split_and!; [done|..|lia|done].
      split; [|lia]. intros [d Hd].
      rewrite elem_of_cons, elem_of_app, !elem_of_cons, elem_of_nil in Hd.
      destruct Hd as [?|[Hd|[?|[]]]]; try done. by apply not_written in Hd.
  - cbn [result files events]. split_and!; [done..|].
    intros d. rewrite elem_of_cons. intros [?|Hd]; [done|].
    by apply not_written in Hd.
Qed.

Lemma scenario_queue :
  Str.sorted (elements (({[ py "a.jpg"; py "b.jpg" ]} : gset (list N)) ∖ ∅))
  = [py "a.jpg"; py "b.jpg"].
Proof. vm_compute. reflexivity. Qed.

(** Scenario C on [deliver_new]: nothing seen, two photos in the album,
    the first delivered and the second not. *)
Lemma scenario_one_of_two_fails fs :
  set_iter_ok env →
  let first := post_to_slack cfg env (py "a.jpg") fs in
  result first = Ret true →
  result (post_to_slack cfg env (py "b.jpg") (files first)) = Ret false →
  let run := deliver_new cfg env ∅ {[ py "a.jpg"; py "b.jpg" ]} fs in
  result run = Ret tt
  ∧ result (load_seen_photos (files run)) = Ret {[ py "a.jpg"; py "b.jpg" ]}.
Proof.
  intros Hok first Ha Hb run. subst first run.
  assert (Hnew : ({[ py "a.jpg"; py "b.jpg" ]} : gset (list N)) ∖ ∅ ≠ ∅).
  { apply (bool_decide_unpack _). by vm_compute. }
  rewrite deliver_new_run by done. cbv zeta.
  rewrite scenario_queue, post_all_cons, bind_run, Ha.
  cbv beta iota. unfold prepend at 1 2 3. cbn [result files events].
  rewrite post_all_cons, bind_run, Hb.
  cbn [result files events prepend post_all mret M_ret].
  rewrite bool_decide_eq_true_2 by lia. cbn [result files]. split; [done|].
  rewrite (load_dump env {[ py "a.jpg"; py "b.jpg" ]}); [done|done|..].
  - apply (bool_decide_unpack _). by vm_compute.
  - apply lookup_insert_eq.
Qed.


Lemma deliveries_harmless tr : Forall harmless tr → deliveries tr = [].
Proof.
  apply deliveries_quiet. intros u [_ H]. by apply (H u).
Qed.


Lemma main_without_setting fs :
  truthy (ALBUM_URL cfg) = false ∨ truthy (SLACK_WEBHOOK cfg) = false →
  ∃ msg, main cfg env fs =
           {| result := Ret tt; files := fs;
              events := [EPrint MsgChecking; EPrint msg] |}
         ∧ (msg = ErrAlbumUrlNotSet ∨ msg = ErrWebhookNotSet).
Proof.
  intros Hmissing. unfold main.
  destruct (truthy (ALBUM_URL cfg)) eqn:Ha; cbn [negb].
  - destruct Hmissing as [|Hw]; [done|]. rewrite Hw. cbn [negb].
    exists ErrWebhookNotSet. by split; [|right].
  - exists ErrAlbumUrlNotSet. by split; [|left].
Qed.

(** C8.  Without [ALBUM_URL] or without [SLACK_WEBHOOK] a run prints its
    greeting and the error and returns: it scrapes nothing, looks at no
    file, changes no file and attempts no delivery. *)
Theorem main_aborts_without_required_setting fs :
  truthy (ALBUM_URL cfg) = false ∨ truthy (SLACK_WEBHOOK cfg) = false →
  let run := main cfg env fs in
  result run = Ret tt
  ∧ files run = fs
  ∧ (events run = [EPrint MsgChecking; EPrint ErrAlbumUrlNotSet]
     ∨ events run = [EPrint MsgChecking; EPrint ErrWebhookNotSet])
  ∧ Forall is_print (events run)
  ∧ deliveries (events run) = [].
Proof.
  intros Hmissing run. subst run.
  destruct (main_without_setting fs Hmissing) as (msg & -> & Hmsg).
  cbn [result files events]. split_and!; [done|done|..|done].
  - destruct Hmsg as [-> | ->]; auto.
  - by repeat constructor.
Qed.

(** *** Where the state file changes *)


Lemma main_saves_last fs :
  ∃ pre post,
    events (main cfg env fs) = pre ++ post
    ∧ Forall (λ e, ¬ mutates SEEN_FILE e) pre
    ∧ save_tail post.
Proof.
  assert (Hh : ∀ tr, Forall harmless tr →
                     Forall (λ e, ¬ mutates SEEN_FILE e) tr).
  { intros tr H. eapply Forall_impl; [done|]. by intros e []. }
  assert (Hnil : ∀ tr, Forall (λ e, ¬ mutates SEEN_FILE e) tr →
             ∃ pre post, tr = pre ++ post
               ∧ Forall (λ e, ¬ mutates SEEN_FILE e) pre ∧ save_tail post).
  { intros tr H. exists tr, []. rewrite app_nil_r. by repeat split; [|left]. }
  destruct (truthy (ALBUM_URL cfg)) eqn:Ha;
    [destruct (truthy (SLACK_WEBHOOK cfg)) eqn:Hw|].
  - destruct (main_run fs Ha Hw) as (pre & Hpre & ->). cbv zeta.
    pose proof (Hh _ (harmless_load fs)) as Hl.
    pose proof (Hh _ (harmless_scrape fs)) as Hs.
    apply harmless_print, Hh in Hpre.
    destruct (result (load_seen_photos fs)) as [seen|e].
    + destruct (result (run_scraper cfg env fs)) as [photos|e].
      * rewrite prepend_prepend. unfold prepend. cbn [events].
        set (current := list_to_set photos : gset (list N)).
        destruct (decide (current ∖ seen = ∅)) as [Hnone|Hnew].
        -- rewrite deliver_new_nothing by done. cbn [events]. apply Hnil.
           rewrite !Forall_app, Forall_cons, Forall_nil. cbn [mutates]. tauto.
        -- rewrite deliver_new_run by done. cbv zeta.
           pose proof (post_all_quiet
             (Str.sorted (elements (current ∖ seen))) 0 fs)
             as Hq%no_write_of_quiet.
           destruct (result (post_all _ _ _ _ _)) as [n|e];
             [case_bool_decide|]; cbn [events].
           ++ rewrite app_comm_cons, (app_assoc _ (_ :: _)).
              eexists _, _. split; [reflexivity|].
              split; [|right; eauto].
              rewrite !Forall_app, Forall_cons. cbn [mutates]. tauto.
           ++ apply Hnil.
              rewrite !Forall_app, Forall_cons, Forall_app, Forall_cons,
                Forall_nil.
              cbn [mutates]. tauto.
           ++ apply Hnil. rewrite !Forall_app, Forall_cons. cbn [mutates]. tauto.
      * unfold prepend. cbn [events]. rewrite !app_nil_r. apply Hnil.
        rewrite !Forall_app. tauto.
    + unfold prepend. cbn [events]. rewrite !app_nil_r. apply Hnil.
      rewrite !Forall_app. tauto.
  - destruct (main_without_setting fs (or_intror Hw)) as (msg & -> & _).
    apply Hnil, Hh, harmless_print. by repeat constructor.
  - destruct (main_without_setting fs (or_introl Ha)) as (msg & -> & _).
    apply Hnil, Hh, harmless_print. by repeat constructor.
Qed.

(** C9.  A delivery performs no event on the state file, and the state
    file is after it what it was before.  In the trace of a run the only
    event that changes the state file is the write of [save_seen_photos]:
    it is the last event but one, after every delivery. *)
Theorem delivery_leaves_state_file_alone :
  (∀ url fs,
     let o := post_to_slack cfg env url fs in
     Forall (λ e, ¬ touches SEEN_FILE e) (events o)
     ∧ files o !! SEEN_FILE = fs !! SEEN_FILE)
  ∧ (∀ fs, ∃ pre post,
       events (main cfg env fs) = pre ++ post
       ∧ Forall (λ e, ¬ mutates SEEN_FILE e) pre
       ∧ (post = []
          ∨ ∃ data n, post = [EWrite SEEN_FILE data; EPrint (MsgPosted n)])
       ∧ deliveries post = []).
Proof.
  split.
  - intros url fs o. split;
      [apply post_to_slack_quiet|apply post_to_slack_seen_file].
  - intros fs. destruct (main_saves_last fs) as (pre & post & H1 & H2 & H3).
    exists pre, post. split_and!; [done..|].
    by destruct H3 as [->|(data & n & ->)].
Qed.
End ProgramFacts.

(** ** The delivery dispatcher, case by case *)

(** Runs a computation symbolically, one case for each way it can go. *)
Ltac wp_walk :=
  repeat match goal with
  | |- wp (_ ≫= _) _ _ => apply wp_bind
  | |- wp (catch _ _) _ _ => apply wp_catch
  | |- wp (mret _) _ _ => apply wp_ret
  | |- wp (raise _) _ _ => apply wp_raise
  | |- wp (emit _) _ _ => apply wp_emit
  | |- wp (print _) _ _ => apply wp_emit
  | |- wp (read_file _) _ _ => apply wp_read
  | |- wp (lookup_file _) _ _ => apply wp_lookup
  | |- wp (modify_files _) _ _ => apply wp_modify
  | |- wp (match ?x with _ => _ end) _ _ => destruct x eqn:?
  | |- _ => progress cbv beta iota zeta
  end.

(** Turns the tests the run has taken into the facts they decided. *)
Ltac unpack_tests :=
  repeat match goal with
  | H : bool_decide _ = true |- _ => apply bool_decide_eq_true in H
  | H : bool_decide _ = false |- _ => apply bool_decide_eq_false in H
  end.

(** Finds an event in a trace built from lists and concatenations. *)
Ltac in_trace :=
  lazymatch goal with
  | |- _ ∈ _ :: _ =>
      first [apply list_elem_of_here | apply list_elem_of_further; in_trace]
  | |- _ ∈ _ ++ _ =>
      apply elem_of_app; first [left; in_trace | right; in_trace]
  end.

(** Refutes that an event is in a trace in which no event has its form. *)
Ltac not_in_trace H :=
  repeat match type of H with
  | _ ∈ _ ++ _ => apply elem_of_app in H as [H|H]
  | _ ∈ _ :: _ => apply elem_of_cons in H as [H|H]; [discriminate H|]
  | _ ∈ [] => by apply elem_of_nil in H
  end;
  try match goal with
  | Hf : Forall _ ?tr |- _ =>
      match type of H with
      | _ ∈ tr =>
          let c := fresh in
          rewrite Forall_forall in Hf; destruct (Hf _ H) as [c ?]; discriminate
      end
  end.

Section DispatcherFacts.
Variable cfg : Config.
Variable env : Env.

Lemma write_chunks_keeps (path : list N) (chunks : list (list N)) (fs : FS) :
  is_Some (fs !! path) →
  is_Some (files (write_chunks path chunks fs) !! path).
Proof.
  revert fs. induction chunks as [|[|c chunk] rest IH]; intros fs Hs;
    cbn [write_chunks]; auto.
  rewrite emit_run. unfold prepend. cbn [files].
  rewrite bind_unfold. cbn [modify_files result files]. apply IH.
  by rewrite lookup_insert_eq.
Qed.

Lemma wp_write_chunks (path : list N) (chunks : list (list N)) (fs : FS) Q :
  (∀ (fs1 : FS) tr,
     (∀ q, q ≠ path → fs1 !! q = fs !! q) →
     (is_Some (fs !! path) → is_Some (fs1 !! path)) →
     Forall (λ e, ∃ c, e = EAppend path c) tr →
     Q (Ret tt) fs1 tr) →
  wp (write_chunks path chunks) fs Q.
Proof.
  intros HQ. unfold wp. rewrite write_chunks_result. apply HQ.
  - intros q Hq. apply write_chunks_frames. congruence.
  - apply write_chunks_keeps.
  - apply write_chunks_traced. eauto.
Qed.


Lemma post_to_slack_returns hook url fs :
  SLACK_WEBHOOK cfg = Some hook →
  (∀ p e, webhook_post env hook p ≠ PostRaise e) →
  ∃ b, result (post_to_slack cfg env url fs) = Ret b
       ∧ (b = true →
          upload_accepted env (events (post_to_slack cfg env url fs))
          ∨ webhook_accepted env (events (post_to_slack cfg env url fs))).
Proof.
  intros Hhook Hpost.
  change (wp (post_to_slack cfg env url) fs (λ r _ tr,
    ∃ b, r = Ret b ∧ (b = true → upload_accepted env tr ∨ webhook_accepted env tr))).
  unfold post_to_slack, tier1, upload, extract_metadata, webhook_fallback.
  wp_walk.
  all: try (apply wp_write_chunks; intros; wp_walk).
  all: unpack_tests; simplify_eq.
  all: try (exfalso; eapply Hpost; eassumption).
  all: eexists; (split; [reflexivity|]); intros ?; try discriminate.
  all: first
    [ right; do 3 eexists; split; [in_trace|eassumption]
    | left; do 5 eexists; split; [in_trace|eassumption] ].
Qed.

(** No delivery raises and every identifier of the list is attempted,
    as long as the webhook POST answers. *)
Lemma post_all_returns hook urls n fs :
  SLACK_WEBHOOK cfg = Some hook →
  (∀ p e, webhook_post env hook p ≠ PostRaise e) →
  ∃ count, result (post_all cfg env urls n fs) = Ret count
           ∧ deliveries (events (post_all cfg env urls n fs)) = urls.
Proof.
  intros Hhook Hpost.
  assert (H : ∃ count, result (post_all cfg env urls n fs) = Ret count).
  { revert n fs. induction urls as [|url rest IH]; intros n fs; [by eexists|].
    rewrite post_all_cons, bind_unfold.
    destruct (post_to_slack_returns hook url fs Hhook Hpost) as (b & -> & _).
    cbn [result]. apply IH. }
  destruct H as [count H]. exists count. split; [done|].
  by eapply post_all_deliveries.
Qed.


(** With a credential, a download that answers with a status other than
    200 ends the delivery at once.  The result is false and the webhook is
    not tried, whatever it would answer. *)
Lemma download_failure_skips_webhook url fs c token status chunks stream_error :
  SLACK_API_TOKEN cfg = Some (c :: token) →
  http_get env url = GetResp status chunks stream_error →
  status ≠ 200%Z →
  let o := post_to_slack cfg env url fs in
  result o = Ret false
  ∧ files o = fs
  ∧ events o = [ECall url; EPrint (MsgDownloading url); EHttpGet url;
                EPrint (MsgDownloadFailed status)]
  ∧ webhook_posts (events o) = [].
Proof.
  intros Htoken Hget Hstatus.
  change (wp (post_to_slack cfg env url) fs (λ r fs' tr,
    r = Ret false ∧ fs' = fs
    ∧ tr = [ECall url; EPrint (MsgDownloading url); EHttpGet url;
            EPrint (MsgDownloadFailed status)]
    ∧ webhook_posts tr = [])).
  unfold post_to_slack, tier1. rewrite Htoken, Hget.
  wp_walk; unpack_tests; [by split_and!|exfalso; tauto].
Qed.

(** The other failures of the first tier do fall back: when the download
    does not answer with a bad status and the webhook answers 200, the
    delivery succeeds, whether the upload worked or not. *)
Lemma tier1_failure_falls_back hook url fs :
  SLACK_WEBHOOK cfg = Some hook →
  (∀ p, ∃ body_text, webhook_post env hook p = PostResp 200 body_text) →
  (∀ status chunks stream_error,
     http_get env url = GetResp status chunks stream_error → status = 200%Z) →
  result (post_to_slack cfg env url fs) = Ret true.
Proof.
  intros Hhook Hpost Hget.
  change (wp (post_to_slack cfg env url) fs (λ r _ _, r = Ret true)).
  unfold post_to_slack, tier1, upload, extract_metadata, webhook_fallback.
  wp_walk.
  all: try (apply wp_write_chunks; intros; wp_walk).
  all: unpack_tests; simplify_eq; try done; try congruence.
  all: try (specialize (Hget _ _ _ eq_refl); congruence).
  all: try match goal with
       | H : webhook_post env ?h ?p = _ |- _ =>
           destruct (Hpost p) as [? ?]; congruence
       end.
Qed.

(** C2, as amended.  With a webhook whose POST answers 200: a delivery
    whose download is not answered with a bad status returns true, by the
    upload or, when the first tier is skipped or fails (the download
    raises, the stream breaks, the upload raises or is refused), by the
    webhook; with a credential, a download answered with a status other
    than 200 makes the delivery return false, and the webhook is not
    tried. *)
Theorem tier1_falls_back_unless_download_refused hook url fs :
  SLACK_WEBHOOK cfg = Some hook →
  (∀ p, ∃ body_text, webhook_post env hook p = PostResp 200 body_text) →
  let o := post_to_slack cfg env url fs in
  ((∀ status chunks stream_error,
      http_get env url = GetResp status chunks stream_error →
      status = 200%Z) →
   result o = Ret true
   ∧ (upload_accepted env (events o) ∨ webhook_accepted env (events o)))
  ∧ (∀ c token status chunks stream_error,
       SLACK_API_TOKEN cfg = Some (c :: token) →
       http_get env url = GetResp status chunks stream_error →
       status ≠ 200%Z →
       result o = Ret false ∧ webhook_posts (events o) = []).
Proof.
  intros Hhook Hpost o. subst o. split.
  - intros Hget.
    pose proof (tier1_failure_falls_back hook url fs Hhook Hpost Hget) as Hres.
    split; [done|].
    destruct (post_to_slack_returns hook url fs Hhook) as (b & Hb & Hacc).
    { intros p e. destruct (Hpost p) as [body_text ->]. discriminate. }
    apply Hacc. congruence.
  - intros c token status chunks stream_error Htoken Hget Hstatus.
    destruct (download_failure_skips_webhook url fs c token status chunks
                stream_error Htoken Hget Hstatus) as (? & _ & _ & ?).
    done.
Qed.

(** C7, what the code does: when the upload request raises, the handler
    goes on to the webhook and the temporary file, created and never
    unlinked, is still there when the delivery ends, however it ends. *)
Theorem temp_file_left_when_upload_raises url fs c token chunks :
  SLACK_API_TOKEN cfg = Some (c :: token) →
  http_get env url = GetResp 200 chunks None →
  (∀ filename content comment,
     ∃ e, files_upload env (c :: token) filename content comment
          = UploadRaise e) →
  let o := post_to_slack cfg env url fs in
  ECreateTemp (temp_path env url) ∈ events o
  ∧ (∀ p, EUnlink p ∉ events o)
  ∧ is_Some (files o !! temp_path env url).
Proof.
  intros Htoken Hget Hup.
  change (wp (post_to_slack cfg env url) fs (λ _ fs' tr,
    ECreateTemp (temp_path env url) ∈ tr
    ∧ (∀ p, EUnlink p ∉ tr)
    ∧ is_Some (fs' !! temp_path env url))).
  unfold post_to_slack, tier1, upload, extract_metadata, webhook_fallback.
  rewrite Htoken, Hget.
  wp_walk.
  all: unpack_tests; try done.
  all: apply wp_write_chunks; intros fs1 tr Hother Hkeep Happend; wp_walk.
  all: try match goal with
       | H : files_upload env _ ?f ?x ?y = UploadResp _ _ _ |- _ =>
           destruct (Hup f x y) as [? ?]; congruence
       end.
  all: split_and!;
    [in_trace
    |let H := fresh in intros ? H; not_in_trace H
    |apply Hkeep; by rewrite lookup_insert_eq].
Qed.


(** X4.  When the upload request is answered, whatever the answer, the
    temporary file is unlinked and gone when the delivery ends. *)
Lemma temp_file_removed_when_upload_answers url fs c token chunks :
  SLACK_API_TOKEN cfg = Some (c :: token) →
  http_get env url = GetResp 200 chunks None →
  (∀ filename content comment,
     ∃ status body_text body,
       files_upload env (c :: token) filename content comment
       = UploadResp status body_text body) →
  let o := post_to_slack cfg env url fs in
  EUnlink (temp_path env url) ∈ events o
  ∧ files o !! temp_path env url = None.
Proof.
  intros Htoken Hget Hup.
  change (wp (post_to_slack cfg env url) fs (λ _ fs' tr,
    EUnlink (temp_path env url) ∈ tr ∧ fs' !! temp_path env url = None)).
  unfold post_to_slack, tier1, upload, extract_metadata, webhook_fallback.
  rewrite Htoken, Hget.
  wp_walk.
  all: unpack_tests; try done.
  all: apply wp_write_chunks; intros fs1 tr Hother Hkeep Happend; wp_walk.
  all: try match goal with
       | H : files_upload env _ ?f ?x ?y = UploadRaise _ |- _ =>
           destruct (Hup f x y) as (? & ? & ? & ?); congruence
       end.
  all: split; [in_trace|apply lookup_delete_eq].
Qed.

Lemma fallback_payload_plain url filename :
  text (fallback_payload url filename None) = WEBHOOK_HEADER.
Proof. unfold fallback_payload. cbn [text]. apply app_nil_r. Qed.

(** C10.  Without an upload credential a delivery performs no event of
    the first tier, and the text of whatever it posts to the webhook is
    the header and nothing more; with a webhook configured it posts one
    such message, for the identifier. *)
Theorem webhook_text_is_header_without_token url fs :
  truthy (SLACK_API_TOKEN cfg) = false →
  let o := post_to_slack cfg env url fs in
  Forall (λ e, ¬ tier1_event e) (events o)
  ∧ (∀ p, p ∈ webhook_posts (events o) → text p = WEBHOOK_HEADER)
  ∧ (∀ hook, SLACK_WEBHOOK cfg = Some hook →
       ∃ p, webhook_posts (events o) = [p]
            ∧ text p = WEBHOOK_HEADER ∧ image_url p = url).
Proof.
  intros Htoken.
  change (wp (post_to_slack cfg env url) fs (λ _ _ tr,
    Forall (λ e, ¬ tier1_event e) tr
    ∧ (∀ p, p ∈ webhook_posts tr → text p = WEBHOOK_HEADER)
    ∧ (∀ hook, SLACK_WEBHOOK cfg = Some hook →
         ∃ p, webhook_posts tr = [p]
              ∧ text p = WEBHOOK_HEADER ∧ image_url p = url))).
  unfold post_to_slack, webhook_fallback.
  destruct (SLACK_API_TOKEN cfg) as [[|c token]|]; [|done|].
  all: wp_walk; unpack_tests; cbn [app webhook_posts omap list_omap].
  all: split;
    [repeat (apply Forall_cons; split; [cbn [tier1_event]; tauto|]);
     by apply Forall_nil|].
  all: split;
    [intros p Hp; try (by apply elem_of_nil in Hp);
     apply list_elem_of_singleton in Hp as ->; apply fallback_payload_plain|].
  all: intros hook' ?; try congruence.
  all: eexists; split_and!;
    [reflexivity|apply fallback_payload_plain|reflexivity].
Qed.
End DispatcherFacts.

(** ** More of the program

    What the functions of [main.py] do beyond the cases above. *)

(** *** Strings *)

Module TextFacts.

Lemma split_cons_ne sep s : Str.split sep s ≠ [].
Proof.
  destruct s as [|c t]; [done|]. cbn [Str.split].
  destruct (c =? sep); [done|]. by destruct (Str.split sep t).
Qed.

Lemma split_app sep a b :
  Str.split sep (a ++ sep :: b) = Str.split sep a ++ Str.split sep b.
Proof.
  induction a as [|c a IH]; cbn [app Str.split].
  - by rewrite N.eqb_refl.
  - destruct (c =? sep); [by rewrite IH|].
    rewrite IH. pose proof (split_cons_ne sep a).
    by destruct (Str.split sep a).
Qed.

Lemma split_none sep s : sep ∉ s → Str.split sep s = [s].
Proof.
  induction s as [|c s IH]; [done|]. intros H.
  apply not_elem_of_cons in H as [Hc Hs]. cbn [Str.split].
  destruct (N.eqb_spec c sep) as [->|_]; [done|]. by rewrite IH.
Qed.

Lemma split_parts sep s : Forall (λ part, (sep ∉ part) ∧ ∀ x, x ∈ part → x ∈ s) (Str.split sep s).
Proof.
  induction s as [|c s IH]; cbn [Str.split].
  - apply Forall_singleton. split; [by intros ?%elem_of_nil|done].
  - destruct (N.eqb_spec c sep) as [->|Hc].
    + constructor.
      * split; [by intros ?%elem_of_nil|]. by intros ? ?%elem_of_nil.
      * eapply Forall_impl; [exact IH|]. intros part [? Hsub].
        split; [done|]. intros x Hx. right. by apply Hsub.
    + pose proof (split_cons_ne sep s).
      destruct (Str.split sep s) as [|h r]; [done|].
      apply Forall_cons in IH as [[Hh Hsub] Hr]. constructor.
      * split.
        -- intros [?|?]%elem_of_cons; [congruence|done].
        -- intros x [->|Hx]%elem_of_cons; [left|right; by apply Hsub].
      * eapply Forall_impl; [exact Hr|]. intros part [? Hsub'].
        split; [done|]. intros x Hx. right. by apply Hsub'.
Qed.

Lemma last_app_ne {A} (l1 l2 : list A) d :
  l2 ≠ [] → List.last (l1 ++ l2) d = List.last l2 d.
Proof.
  intros H. destruct (exists_last H) as (l & a & ->).
  by rewrite app_assoc, !last_last.
Qed.

Lemma last_in {A} (P : A → Prop) (l : list A) d :
  l ≠ [] → Forall P l → P (List.last l d).
Proof.
  intros H. destruct (exists_last H) as (l' & a & ->).
  rewrite last_last, Forall_app, Forall_singleton. tauto.
Qed.

Lemma lstrip_spaces w s : Forall (λ c, Str.isspace c = true) w →
  Str.lstrip (w ++ s) = Str.lstrip s.
Proof. induction 1 as [|c w Hc _ IH]; [done|]. cbn [app Str.lstrip]. by rewrite Hc. Qed.

Lemma lstrip_app s w : Str.lstrip s ≠ [] → Str.lstrip (s ++ w) = Str.lstrip s ++ w.
Proof.
  induction s as [|c s IH]; [done|]. cbn [app Str.lstrip].
  destruct (Str.isspace c); [exact IH|done].
Qed.

Lemma lstrip_all s : Forall (λ c, Str.isspace c = true) s → Str.lstrip s = [].
Proof. induction 1 as [|c w Hc _ IH]; [done|]. cbn [Str.lstrip]. by rewrite Hc. Qed.

Lemma lstrip_nil_all s : Str.lstrip s = [] → Forall (λ c, Str.isspace c = true) s.
Proof.
  induction s as [|c s IH]; [constructor|]. cbn [Str.lstrip].
  destruct (Str.isspace c) eqn:Hc; [|done]. intros H. constructor; auto.
Qed.

Lemma rstrip_spaces s w : Forall (λ c, Str.isspace c = true) w →
  Str.rstrip (s ++ w) = Str.rstrip s.
Proof.
  intros H. unfold Str.rstrip. rewrite rev_app_distr, lstrip_spaces; [done|].
  by apply Forall_rev.
Qed.

(** Whitespace around a text does not survive [strip]. *)
Lemma strip_padded w1 s w2 :
  Forall (λ c, Str.isspace c = true) w1 → Forall (λ c, Str.isspace c = true) w2 →
  Str.strip (w1 ++ s ++ w2) = Str.strip s.
Proof.
  intros H1 H2. unfold Str.strip. rewrite lstrip_spaces by done.
  destruct (Str.lstrip s) as [|c t] eqn:Hs.
  - apply lstrip_nil_all in Hs. rewrite lstrip_all; [done|].
    by apply Forall_app.
  - rewrite lstrip_app, Hs by congruence. by apply rstrip_spaces.
Qed.

Lemma startswith_spec p s : Str.startswith p s = true ↔ ∃ b, s = p ++ b.
Proof.
  revert s. induction p as [|a p IH]; intros s; cbn [Str.startswith].
  - split; [eauto|done].
  - destruct s as [|c s].
    + split; [done|]. by intros [b ?].
    + rewrite andb_true_iff, N.eqb_eq, IH. split.
      * intros [-> [b ->]]. by exists b.
      * intros [b [= -> ->]]. eauto.
Qed.

(** [p in s] holds exactly when [p] is a substring of [s]. *)
Lemma contains_spec p s : Str.contains p s = true ↔ ∃ a b, s = a ++ p ++ b.
Proof.
  induction s as [|c s IH]; cbn [Str.contains]; rewrite orb_true_iff, startswith_spec.
  - split.
    + intros [[b ->]|?]; [by exists [], b|done].
    + intros (a & b & H). left. exists b. destruct a; [done|discriminate].
  - rewrite IH. split.
    + intros [[b ->]|(a & b & ->)]; [by exists [], b|by exists (c :: a), b].
    + intros (a & b & H). destruct a as [|x a]; [left; by exists b|].
      right. injection H as -> ->. by exists a, b.
Qed.

End TextFacts.

Section FilenameFacts.

(** X2.  The file name of a delivery is the text between the last slash and
    the first question mark. *)
Theorem filename_is_last_path_segment :
  (∀ url, (47 ∉ filename_of url) ∧ 63 ∉ filename_of url)
  ∧ (∀ base name query,
       63 ∉ base → 47 ∉ name → 63 ∉ name →
       filename_of (base ++ 47 :: name) = name
       ∧ filename_of (base ++ 47 :: name ++ 63 :: query) = name)
  ∧ (∀ name query,
       47 ∉ name → 63 ∉ name → filename_of (name ++ 63 :: query) = name).
Proof.
  assert (Hlast : ∀ base name, 47 ∉ name →
            List.last (Str.split 47 (base ++ 47 :: name)) [] = name).
  { intros base name Hn. rewrite TextFacts.split_app, TextFacts.last_app_ne
      by apply TextFacts.split_cons_ne. by rewrite TextFacts.split_none. }
  assert (Hhd : ∀ s query, 63 ∉ s → hd [] (Str.split 63 (s ++ 63 :: query)) = s).
  { intros s query Hs. by rewrite TextFacts.split_app, TextFacts.split_none. }
  split_and!.
  - intros url. unfold filename_of.
    pose proof (TextFacts.split_parts 63 url) as H63.
    pose proof (TextFacts.split_cons_ne 63 url) as Hne.
    destruct (Str.split 63 url) as [|s r]; [done|]. cbn [hd].
    apply Forall_cons in H63 as [[Hs _] _].
    apply (TextFacts.last_in (λ part, (47 ∉ part) ∧ 63 ∉ part));
      [apply TextFacts.split_cons_ne|].
    eapply Forall_impl; [apply TextFacts.split_parts|].
    intros part [H47 Hsub]. split; [done|]. intros H. by apply Hs, Hsub.
  - intros base name query Hb H47 H63. unfold filename_of. split.
    + rewrite (TextFacts.split_none 63); [by apply Hlast|].
      rewrite elem_of_app, elem_of_cons. intros [?|[?|?]]; done.
    + rewrite (app_comm_cons name), app_assoc, Hhd; [by apply Hlast|].
      rewrite elem_of_app, elem_of_cons. intros [?|[?|?]]; done.
  - intros name query H47 H63. unfold filename_of.
    rewrite Hhd by done. by rewrite TextFacts.split_none.
Qed.

End FilenameFacts.

(** *** The state file *)

Module EncoderFacts.

Lemma hex_digit_printable d : d < 16 → 32 ≤ Json.hex_digit d ≤ 126.
Proof. intros H. unfold Json.hex_digit. destruct (N.ltb_spec d 10); lia. Qed.

Lemma backslash_u_printable n : Forall (λ c, 32 ≤ c ≤ 126) (Json.backslash_u n).
Proof.
  unfold Json.backslash_u, Json.hex4.
  repeat (apply Forall_cons; split; [first [lia|apply hex_digit_printable, N.mod_lt; lia]|]).
  constructor.
Qed.

Lemma escape_char_printable c : Forall (λ c, 32 ≤ c ≤ 126) (Json.escape_char c).
Proof.
  unfold Json.escape_char.
  repeat match goal with
  | |- context [?a =? ?b] => destruct (N.eqb_spec a b)
  end; try (repeat (apply Forall_cons; split; [lia|]); by apply Forall_nil).
  destruct (N.leb_spec 32 c), (N.leb_spec c 126); cbn [andb];
    [apply Forall_singleton; lia|..];
    (destruct (N.ltb_spec c 65536); cbv zeta;
     rewrite ?Forall_app; auto using backslash_u_printable).
Qed.

Lemma encode_str_printable s : Forall (λ c, 32 ≤ c ≤ 126) (Json.encode_str s).
Proof.
  unfold Json.encode_str. apply Forall_cons. split; [lia|].
  apply Forall_app. split; [|apply Forall_singleton; lia].
  induction s as [|c s IH]; [constructor|]. cbn [flat_map].
  apply Forall_app. auto using escape_char_printable.
Qed.

Lemma join_comma_printable items :
  Forall (Forall (λ c, 32 ≤ c ≤ 126)) items →
  Forall (λ c, 32 ≤ c ≤ 126) (Json.join_comma items).
Proof.
  induction 1 as [|x rest Hx Hrest IH]; [constructor|].
  cbn [Json.join_comma]. destruct rest as [|y rest]; [done|].
  apply Forall_app. split; [done|].
  repeat (apply Forall_cons; split; [lia|]). exact IH.
Qed.

Lemma dump_strs_printable l : Forall (λ c, 32 ≤ c ≤ 126) (Json.dump_strs l).
Proof.
  unfold Json.dump_strs. apply Forall_cons. split; [lia|].
  apply Forall_app. split; [|apply Forall_singleton; lia].
  apply join_comma_printable, Forall_forall.
  intros x (s & -> & _)%list_elem_of_fmap. apply encode_str_printable.
Qed.

End EncoderFacts.

Section StateFileFacts.

(** X13.  The state file that [save_seen_photos] writes is printable ASCII,
    whatever the identifiers hold. *)
Theorem saved_state_file_is_printable_ascii (env : Env) (x : gset str) (fs : FS) :
  ∃ data,
    files (save_seen_photos env x fs) !! SEEN_FILE = Some data
    ∧ events (save_seen_photos env x fs) = [EWrite SEEN_FILE data]
    ∧ Forall (λ c, 32 ≤ c ≤ 126) data.
Proof.
  rewrite save_run. cbn [files events]. eexists. split_and!;
    [apply lookup_insert_eq|reflexivity|apply EncoderFacts.dump_strs_printable].
Qed.

(** What of the file system [load_seen_photos] depends on. *)
Lemma load_result_of_file (fs1 fs2 : FS) file_text1 file_text2 :
  fs1 !! SEEN_FILE = Some file_text1 → fs2 !! SEEN_FILE = Some file_text2 →
  Str.strip file_text1 = Str.strip file_text2 →
  result (load_seen_photos fs1) = result (load_seen_photos fs2).
Proof.
  intros H1 H2 Hs.
  destruct (decide (Str.strip file_text1 = [])) as [Hb|Hb].
  - rewrite (load_blank _ _ H1 Hb), (load_blank _ file_text2 H2); [done|congruence].
  - rewrite (load_decoded _ _ H1 Hb), (load_decoded _ file_text2 H2) by congruence.
    rewrite Hs. by destruct (Json.loads _).
Qed.

Lemma load_result_seen_file (fs1 fs2 : FS) :
  fs1 !! SEEN_FILE = fs2 !! SEEN_FILE →
  result (load_seen_photos fs1) = result (load_seen_photos fs2).
Proof.
  intros H. destruct (fs2 !! SEEN_FILE) as [t|] eqn:H2.
  - by apply (load_result_of_file _ _ t t).
  - by rewrite !load_missing.
Qed.

(** X14.  White space before and after the text of the state file makes no
    difference to what is loaded. *)
Theorem load_ignores_surrounding_whitespace (fs : FS) file_text w1 w2 :
  Forall (λ c, Str.isspace c = true) w1 →
  Forall (λ c, Str.isspace c = true) w2 →
  fs !! SEEN_FILE = Some file_text →
  result (load_seen_photos (<[SEEN_FILE := w1 ++ file_text ++ w2]> fs))
  = result (load_seen_photos fs).
Proof.
  intros H1 H2 Hfs.
  apply (load_result_of_file _ _ (w1 ++ file_text ++ w2) file_text);
    [apply lookup_insert_eq|done|by apply TextFacts.strip_padded].
Qed.

Lemma load_array (fs : FS) (l : list str) :
  Forall wf_ident l →
  fs !! SEEN_FILE = Some (Json.dump_strs l) →
  result (load_seen_photos fs) = Ret (list_to_set l).
Proof.
  intros Hwf Hfs. rewrite (load_decoded _ _ Hfs);
    rewrite JsonFacts.strip_dump_strs; [|done].
  by rewrite JsonFacts.loads_dump_strs, set_of_json_strs.
Qed.

(** X15.  A state file that holds an array of strings loads as the set of the
    strings: their order and their repetitions are lost. *)
Theorem load_reads_array_as_set (fs : FS) (l : list str) :
  Forall wf_ident l →
  fs !! SEEN_FILE = Some (Json.dump_strs l) →
  result (load_seen_photos fs) = Ret (list_to_set l)
  ∧ ∀ l', Forall wf_ident l' → (∀ u, u ∈ l' ↔ u ∈ l) →
      result (load_seen_photos (<[SEEN_FILE := Json.dump_strs l']> fs))
      = result (load_seen_photos fs).
Proof.
  intros Hwf Hfs. split; [by apply load_array|].
  intros l' Hwf' Hsame. rewrite (load_array fs l), (load_array _ l');
    [|done|apply lookup_insert_eq|done..].
  f_equal. apply set_eq. intros u. by rewrite !elem_of_list_to_set.
Qed.

End StateFileFacts.

(** *** The metadata of a photo *)

Section MetadataFacts.

Lemma collect_metadata_snoc items tag value :
  collect_metadata (items ++ [(tag, value)]) =
  if bool_decide (tag ∈ [py "DateTimeOriginal"; py "Make"; py "Model"])
  then <[tag := value]> (collect_metadata items)
  else collect_metadata items.
Proof. unfold collect_metadata. by rewrite foldl_app. Qed.

(** The dictionary holds the tags of interest that the EXIF data has, with
    their values, and no other. *)
Lemma collect_metadata_lookup items tag value :
  NoDup items.*1 →
  collect_metadata items !! tag = Some value ↔
    tag ∈ [py "DateTimeOriginal"; py "Make"; py "Model"] ∧ (tag, value) ∈ items.
Proof.
  induction items as [|[t v] items IH] using rev_ind; intros Hnd.
  { unfold collect_metadata. cbn [foldl]. rewrite lookup_empty, elem_of_nil.
    split; [done|tauto]. }
  rewrite fmap_app in Hnd. apply NoDup_app in Hnd as (Hnd & Hfresh & _).
  specialize (IH Hnd).
  assert (Ht : ∀ w, (t, w) ∉ items).
  { intros w Hin. apply (Hfresh t); [|cbn; left].
    apply list_elem_of_fmap. by exists (t, w). }
  rewrite collect_metadata_snoc, elem_of_app, list_elem_of_singleton.
  case_bool_decide as Hi.
  - destruct (decide (tag = t)) as [->|Hne].
    + rewrite lookup_insert_eq. split.
      * intros [= ->]. auto.
      * intros [_ [Hin|[= ->]]]; [by apply Ht in Hin|done].
    + rewrite lookup_insert_ne, IH by done. split.
      * intros [? ?]. auto.
      * intros [? [?|[= -> ->]]]; [done|congruence].
  - rewrite IH. split.
    + intros [? ?]. auto.
    + intros [? [?|[= -> ->]]]; [done|tauto].
Qed.

(** X12.  What the metadata text says of the EXIF data: the date the photo was
    taken when the data has it, the device when the data has both its make and
    its model, and nothing else; a make without a model is dropped. *)
Theorem metadata_lines_show_date_and_device items :
  NoDup items.*1 →
  let metadata_text := metadata_lines (collect_metadata items) in
  (∀ taken, (py "DateTimeOriginal", taken) ∈ items →
     (128197 :: py " Taken: " ++ taken ++ [10]) `prefix_of` metadata_text)
  ∧ (∀ make model,
       (py "Make", make) ∈ items → (py "Model", model) ∈ items →
       (128241 :: py " Device: " ++ make ++ 32 :: model ++ [10])
         `suffix_of` metadata_text)
  ∧ ((∀ taken, (py "DateTimeOriginal", taken) ∉ items) →
     (∀ make, (py "Make", make) ∉ items)
     ∨ (∀ model, (py "Model", model) ∉ items) →
     metadata_text = []).
Proof.
  intros Hnd metadata_text. subst metadata_text. unfold metadata_lines.
  assert (Hyes : ∀ tag value,
            tag ∈ [py "DateTimeOriginal"; py "Make"; py "Model"] →
            (tag, value) ∈ items → collect_metadata items !! tag = Some value).
  { intros tag value ? ?. by apply collect_metadata_lookup. }
  assert (Hno : ∀ tag, (∀ value, (tag, value) ∉ items) →
            collect_metadata items !! tag = None).
  { intros tag Hout. apply eq_None_not_Some. intros [value Hv].
    apply collect_metadata_lookup in Hv as [_ Hv]; [|done]. by apply Hout in Hv. }
  split_and!.
  - intros taken Hin. rewrite (Hyes (py "DateTimeOriginal") taken); [|in_trace|done].
    by eexists.
  - intros make model Hmake Hmodel.
    rewrite (Hyes (py "Make") make), (Hyes (py "Model") model);
      [|in_trace|done|in_trace|done].
    by eexists.
  - intros Htaken Hdevice. rewrite (Hno (py "DateTimeOriginal")) by done.
    destruct Hdevice as [H|H]; rewrite (Hno _ H); [done|].
    by destruct (collect_metadata items !! py "Make").
Qed.

End MetadataFacts.

(** *** A delivery, tier by tier *)

(** Brings what the run has read of the temporary file and of the EXIF
    data to the form the statements use. *)
Ltac settle_reads :=
  rewrite ?lookup_insert_eq in *;
  cbv [default from_option id exif_text upload_comment] in *;
  repeat match goal with
  | H : getexif ?env ?x = _, H' : context [getexif ?env ?x] |- _ =>
      rewrite H in H'; cbv beta iota in H'
  | H : getexif ?env ?x = _ |- context [getexif ?env ?x] =>
      rewrite H; cbv beta iota
  end.

Section DeliveryFacts.
Variable cfg : Config.
Variable env : Env.

Lemma write_chunks_run (path : str) (chunks : list str) (fs : FS) content :
  fs !! path = Some content →
  write_chunks path chunks fs =
    {| result := Ret tt;
       files := <[path := content ++ concat chunks]> fs;
       events := appends path chunks |}.
Proof.
  revert fs content.
  induction chunks as [|[|c chunk] rest IH]; intros fs content Hfs;
    cbn [write_chunks concat app].
  - by rewrite app_nil_r, insert_id.
  - by apply IH.
  - rewrite emit_run, bind_run. cbn [modify_files result files events].
    rewrite Hfs. cbn [default].
    rewrite (IH _ (content ++ c :: chunk)) by apply lookup_insert_eq.
    unfold prepend, appends. cbn [result files events].
    rewrite insert_insert_eq, <- app_assoc.
    rewrite filter_cons_True by done. reflexivity.
Qed.

Lemma wp_write_chunks_fresh (path : str) (chunks : list str) (fs : FS) Q :
  Q (Ret tt) (<[path := concat chunks]> fs) (appends path chunks) →
  wp (write_chunks path chunks) (<[path := []]> fs) Q.
Proof.
  intros HQ. unfold wp.
  rewrite (write_chunks_run path chunks _ []) by apply lookup_insert_eq.
  cbn [result files events app]. by rewrite insert_insert_eq.
Qed.

Lemma webhook_posts_app tr1 tr2 :
  webhook_posts (tr1 ++ tr2) = webhook_posts tr1 ++ webhook_posts tr2.
Proof. apply omap_app. Qed.

Lemma webhook_posts_appends path chunks :
  webhook_posts (appends path chunks) = [].
Proof.
  unfold appends. induction (filter _ chunks) as [|x l IH]; [done|]. exact IH.
Qed.

Lemma in_appends e path chunks :
  e ∈ appends path chunks → ∃ chunk, e = EAppend path chunk.
Proof. unfold appends. intros (chunk & -> & _)%list_elem_of_fmap. eauto. Qed.


(** X3.  With a credential, a download that is answered in full and an upload
    that Slack accepts: the delivery succeeds by the upload alone. What is
    uploaded are the bytes that were downloaded, under the file name of the
    URL and with the comment of the upload; nothing goes to the webhook, and
    the temporary file is gone. *)
Theorem accepted_upload_delivers_the_download url fs c token chunks body_text :
  SLACK_API_TOKEN cfg = Some (c :: token) →
  http_get env url = GetResp 200 chunks None →
  let image := concat chunks in
  let comment := upload_comment env url (exif_text env image) in
  files_upload env (c :: token) (filename_of url) image comment
  = UploadResp 200 body_text (JsonOk true) →
  let o := post_to_slack cfg env url fs in
  result o = Ret true
  ∧ EUpload (c :: token) (filename_of url) image comment ∈ events o
  ∧ webhook_posts (events o) = []
  ∧ files o = delete (temp_path env url) fs.
Proof.
  intros Htoken Hget image comment Hup. subst image comment.
  change (wp (post_to_slack cfg env url) fs (λ r fs' tr,
    r = Ret true
    ∧ EUpload (c :: token) (filename_of url) (concat chunks)
        (upload_comment env url (exif_text env (concat chunks))) ∈ tr
    ∧ webhook_posts tr = []
    ∧ fs' = delete (temp_path env url) fs)).
  unfold post_to_slack, tier1, upload, extract_metadata, webhook_fallback.
  rewrite Htoken, Hget.
  wp_walk.
  all: unpack_tests; try done.
  all: apply wp_write_chunks_fresh; wp_walk.
  all: settle_reads; unpack_tests; try congruence; simplify_eq.
  all: split_and!;
    [done|in_trace
    |rewrite !webhook_posts_app, webhook_posts_appends; reflexivity
    |apply delete_insert_eq].
Qed.


(** X5.  A failure of the EXIF extraction is reported and nothing more: the
    upload goes ahead with a comment that has no metadata, and an accepted
    upload still delivers. *)
Theorem exif_failure_does_not_stop_upload url fs c token chunks :
  SLACK_API_TOKEN cfg = Some (c :: token) →
  http_get env url = GetResp 200 chunks None →
  getexif env (concat chunks) = ExifRaise →
  let comment := UPLOAD_HEADER ++ now env url in
  let o := post_to_slack cfg env url fs in
  EPrint MsgExifFailed ∈ events o
  ∧ EUpload (c :: token) (filename_of url) (concat chunks) comment ∈ events o
  ∧ (∀ body_text,
       files_upload env (c :: token) (filename_of url) (concat chunks) comment
       = UploadResp 200 body_text (JsonOk true) →
       result o = Ret true).
Proof.
  intros Htoken Hget Hexif comment. subst comment. cbv zeta.
  change (wp (post_to_slack cfg env url) fs (λ r fs' tr,
    EPrint MsgExifFailed ∈ tr
    ∧ EUpload (c :: token) (filename_of url) (concat chunks)
        (UPLOAD_HEADER ++ now env url) ∈ tr
    ∧ (∀ body_text,
         files_upload env (c :: token) (filename_of url) (concat chunks)
           (UPLOAD_HEADER ++ now env url)
         = UploadResp 200 body_text (JsonOk true) →
         r = Ret true))).
  unfold post_to_slack, tier1, upload, extract_metadata, webhook_fallback.
  rewrite Htoken, Hget.
  wp_walk.
  all: unpack_tests; try done.
  all: apply wp_write_chunks_fresh; wp_walk.
  all: settle_reads; unpack_tests; try congruence; simplify_eq.
  all: rewrite ?app_nil_r in *.
  all: split_and!; [in_trace|in_trace|intros; congruence].
Qed.

(** X6.  When the upload is not accepted (it raises, is answered with another
    status, or is answered without a true [ok]), the webhook gets one message,
    and its text carries the metadata lines the first tier extracted. *)
Theorem refused_upload_hands_metadata_to_webhook hook url fs c token chunks :
  SLACK_WEBHOOK cfg = Some hook →
  SLACK_API_TOKEN cfg = Some (c :: token) →
  http_get env url = GetResp 200 chunks None →
  let image := concat chunks in
  let metadata_text := exif_text env image in
  (∀ body_text,
     files_upload env (c :: token) (filename_of url) image
       (upload_comment env url metadata_text)
     ≠ UploadResp 200 body_text (JsonOk true)) →
  let o := post_to_slack cfg env url fs in
  ∃ p, webhook_posts (events o) = [p]
       ∧ image_url p = url
       ∧ text p = WEBHOOK_HEADER ++
                  match metadata_text with
                  | [] => []
                  | _ :: _ => 10 :: metadata_text
                  end.
Proof.
  intros Hhook Htoken Hget image metadata_text Hup. subst image metadata_text.
  change (wp (post_to_slack cfg env url) fs (λ r fs' tr,
    ∃ p, webhook_posts tr = [p]
         ∧ image_url p = url
         ∧ text p = WEBHOOK_HEADER ++
                    match exif_text env (concat chunks) with
                    | [] => []
                    | _ :: _ => 10 :: exif_text env (concat chunks)
                    end)).
  unfold post_to_slack, tier1, upload, extract_metadata, webhook_fallback.
  rewrite Htoken, Hget, Hhook.
  wp_walk.
  all: unpack_tests; try done.
  all: apply wp_write_chunks_fresh; wp_walk.
  all: settle_reads; unpack_tests; simplify_eq.
  all: try (exfalso; eapply Hup; eassumption).
  all: eexists; split_and!;
    [rewrite !webhook_posts_app, webhook_posts_appends; reflexivity
    |reflexivity|].
  all: cbn [fallback_payload text]; try reflexivity;
    by destruct (metadata_lines _).
Qed.

(** X7.  With a credential, a download that raises or is answered with a
    status other than 200 creates no temporary file: the delivery touches no
    file and uploads nothing. *)
Theorem failed_download_creates_no_file url fs c token :
  SLACK_API_TOKEN cfg = Some (c :: token) →
  (∀ chunks stream_error, http_get env url ≠ GetResp 200 chunks stream_error) →
  let o := post_to_slack cfg env url fs in
  files o = fs
  ∧ Forall (λ e, event_path e = None) (events o)
  ∧ ∀ tok filename content comment,
      EUpload tok filename content comment ∉ events o.
Proof.
  intros Htoken Hget.
  change (wp (post_to_slack cfg env url) fs (λ r fs' tr,
    fs' = fs
    ∧ Forall (λ e, event_path e = None) tr
    ∧ ∀ tok filename content comment,
        EUpload tok filename content comment ∉ tr)).
  unfold post_to_slack, tier1, webhook_fallback.
  rewrite Htoken.
  wp_walk.
  all: unpack_tests; simplify_eq.
  all: try match goal with
       | H : ¬ _ ≠ 200%Z |- _ => apply dec_stable in H; subst
       end.
  all: try (exfalso; eapply Hget; reflexivity).
  all: split_and!;
    [done
    |repeat first [apply Forall_app; split | apply Forall_cons; split
                  | apply Forall_nil]; done
    |let H := fresh in intros ? ? ? ? H; not_in_trace H].
Qed.

(** X8.  A stream that breaks while the image is written leaves the part that
    arrived in the temporary file: nothing is uploaded, and the webhook gets
    the plain header. *)
Theorem broken_stream_leaves_partial_file url fs c token chunks e :
  SLACK_API_TOKEN cfg = Some (c :: token) →
  http_get env url = GetResp 200 chunks (Some e) →
  let o := post_to_slack cfg env url fs in
  files o = <[temp_path env url := concat chunks]> fs
  ∧ EPrint (MsgErrorUploading e) ∈ events o
  ∧ (∀ p, EUnlink p ∉ events o)
  ∧ (∀ tok filename content comment,
       EUpload tok filename content comment ∉ events o)
  ∧ (∀ p, p ∈ webhook_posts (events o) → text p = WEBHOOK_HEADER).
Proof.
  intros Htoken Hget.
  change (wp (post_to_slack cfg env url) fs (λ r fs' tr,
    fs' = <[temp_path env url := concat chunks]> fs
    ∧ EPrint (MsgErrorUploading e) ∈ tr
    ∧ (∀ p, EUnlink p ∉ tr)
    ∧ (∀ tok filename content comment,
         EUpload tok filename content comment ∉ tr)
    ∧ (∀ p, p ∈ webhook_posts tr → text p = WEBHOOK_HEADER))).
  unfold post_to_slack, tier1, webhook_fallback.
  rewrite Htoken, Hget.
  wp_walk.
  all: unpack_tests; try done.
  all: apply wp_write_chunks_fresh; wp_walk.
  all: split_and!;
    [done
    |in_trace
    |let H := fresh in intros ? H; not_in_trace H;
     by apply in_appends in H as [? ?]
    |let H := fresh in intros ? ? ? ? H; not_in_trace H;
     by apply in_appends in H as [? ?]
    |rewrite !webhook_posts_app, webhook_posts_appends;
     cbn [app webhook_posts omap list_omap];
     let H := fresh in intros ? H;
     try (by apply elem_of_nil in H);
     apply list_elem_of_singleton in H as ->; apply fallback_payload_plain].
Qed.


Lemma webhook_posts_of_appends (path : str) tr :
  Forall (λ e, ∃ chunk, e = EAppend path chunk) tr → webhook_posts tr = [].
Proof. induction 1 as [|e tr [chunk ->] _ IH]; [done|exact IH]. Qed.

Lemma success_lines_app tr1 tr2 :
  success_lines (tr1 ++ tr2) = success_lines tr1 ++ success_lines tr2.
Proof. apply omap_app. Qed.

Lemma success_lines_of_appends (path : str) tr :
  Forall (λ e, ∃ chunk, e = EAppend path chunk) tr → success_lines tr = [].
Proof. induction 1 as [|e tr [chunk ->] _ IH]; [done|exact IH]. Qed.

(** X9.  Whatever happens in a delivery, at most one message goes to the
    webhook, to the configured address; it shows the URL as it was given, the
    query included, and names the file; its text begins with the header. *)
Theorem webhook_message_names_the_photo url fs :
  let o := post_to_slack cfg env url fs in
  (length (webhook_posts (events o)) ≤ 1)%nat
  ∧ ∀ hook p, EWebhook hook p ∈ events o →
      SLACK_WEBHOOK cfg = Some hook
      ∧ image_url p = url
      ∧ fallback p = py "New photo from shared album"
      ∧ attachment_text p = py "Filename: `" ++ filename_of url ++ py "`"
      ∧ WEBHOOK_HEADER `prefix_of` text p.
Proof.
  cbv zeta. split.
  - change (wp (post_to_slack cfg env url) fs (λ _ _ tr,
      (length (webhook_posts tr) ≤ 1)%nat)).
    unfold post_to_slack, tier1, upload, extract_metadata, webhook_fallback.
    wp_walk.
    all: try (apply wp_write_chunks; intros fs1 tr Hother Hkeep Happend;
              wp_walk).
    all: rewrite ?webhook_posts_app, ?(webhook_posts_of_appends _ _ Happend).
    all: cbn [app webhook_posts omap list_omap length]; lia.
  - set (P := λ e, match e with
                   | EWebhook hook p =>
                       SLACK_WEBHOOK cfg = Some hook
                       ∧ image_url p = url
                       ∧ fallback p = py "New photo from shared album"
                       ∧ attachment_text p
                         = py "Filename: `" ++ filename_of url ++ py "`"
                       ∧ WEBHOOK_HEADER `prefix_of` text p
                   | _ => True
                   end).
    assert (Hm : traced P (post_to_slack cfg env url)).
    { unfold post_to_slack, tier1, upload, extract_metadata, webhook_fallback.
      walk; try done.
      all: first [by apply write_chunks_traced
                 |split_and!; try done; by eexists]. }
    intros hook p Hin. specialize (Hm fs). rewrite Forall_forall in Hm.
    apply (Hm _ Hin).
Qed.

(** X10.  A delivery changes no file other than its temporary file, and every
    file it looks at or changes is that file. *)
Theorem delivery_changes_only_its_temporary_file url fs :
  let o := post_to_slack cfg env url fs in
  (∀ q, q ≠ temp_path env url → files o !! q = fs !! q)
  ∧ Forall (λ e, ∀ q, touches q e → q = temp_path env url) (events o).
Proof.
  cbv zeta. split.
  - intros q Hq. apply post_to_slack_frames. congruence.
  - destruct (post_to_slack_events cfg env url fs) as (tr & -> & Htr).
    constructor; [by intros q [=]|].
    eapply Forall_impl; [exact Htr|]. intros e He q Hq. unfold touches in Hq.
    destruct e; simpl in *; try done; congruence.
Qed.

(** X11.  A delivery that returns true has printed one line of success, and
    any other has printed none; the count of the loop is the number of such
    lines, and never more than the photos of the batch. *)
Theorem success_count_counts_success_lines :
  (∀ url fs,
     let o := post_to_slack cfg env url fs in
     length (success_lines (events o))
     = match result o with Ret true => 1%nat | _ => 0%nat end)
  ∧ (∀ urls n fs count,
       let loop := post_all cfg env urls n fs in
       result loop = Ret count →
       count = (n + length (success_lines (events loop)))%nat
       ∧ (count ≤ n + length urls)%nat).
Proof.
  assert (Hone : ∀ url fs,
    length (success_lines (events (post_to_slack cfg env url fs)))
    = match result (post_to_slack cfg env url fs) with
      | Ret true => 1%nat
      | _ => 0%nat
      end).
  { intros url fs.
    change (wp (post_to_slack cfg env url) fs (λ r _ tr,
      length (success_lines tr)
      = match r with Ret true => 1%nat | _ => 0%nat end)).
    unfold post_to_slack, tier1, upload, extract_metadata, webhook_fallback.
    wp_walk.
    all: try (apply wp_write_chunks; intros fs1 tr Hother Hkeep Happend;
              wp_walk).
    all: rewrite ?success_lines_app, ?(success_lines_of_appends _ _ Happend).
    all: reflexivity. }
  split; [exact Hone|].
  intros urls. induction urls as [|url rest IH]; intros n fs count; cbv zeta.
  { intros [= ->]. cbn. lia. }
  rewrite post_all_cons, bind_unfold. specialize (Hone url fs).
  destruct (result (post_to_slack cfg env url fs)) as [ok|e]; cbn [result events];
    [|done].
  intros Hres. apply IH in Hres as [-> Hle].
  rewrite success_lines_app, length_app, Hone.
  cbn [length] in *. destruct ok; lia.
Qed.

End DeliveryFacts.

(** *** Whole runs *)

Section RunFacts.
Variable cfg : Config.
Variable env : Env.

Lemma run_scraper_result fs :
  result (run_scraper cfg env fs) =
  match page_img_srcs env (ALBUM_URL cfg) with
  | ScrapeRaise e => Raise e
  | ScrapeOk img_srcs =>
      Ret (set_iter env (list_to_set
             (filter (λ src, Str.contains (py "icloud") src = true
                             ∧ Str.contains (py "content.com") src = true)
                     img_srcs)))
  end.
Proof.
  unfold run_scraper. rewrite !bind_unfold. cbn [print emit result files].
  by destruct (page_img_srcs env (ALBUM_URL cfg)).
Qed.

(** X1.  The scraper returns the sources of the page that name both [icloud]
    and [content.com], each once and as the page has it, the query included;
    it reports how many they are and touches no file. *)
Theorem run_scraper_keeps_cdn_urls_once fs img_srcs :
  set_iter_ok env →
  page_img_srcs env (ALBUM_URL cfg) = ScrapeOk img_srcs →
  let o := run_scraper cfg env fs in
  ∃ photos,
    result o = Ret photos
    ∧ NoDup photos
    ∧ (∀ u, u ∈ photos ↔
         u ∈ img_srcs
         ∧ (∃ a b, u = a ++ py "icloud" ++ b)
         ∧ (∃ a b, u = a ++ py "content.com" ++ b))
    ∧ EPrint (MsgFound (length photos)) ∈ events o
    ∧ files o = fs.
Proof.
  intros Hok Hpage o. subst o. rewrite run_scraper_result, Hpage.
  eexists. split_and!; [reflexivity|..].
  - rewrite (Hok _). apply NoDup_elements.
  - intros u. rewrite set_iter_elem, elem_of_list_to_set, list_elem_of_filter,
      !TextFacts.contains_spec by done. tauto.
  - unfold run_scraper. rewrite !print_run, emit_run, Hpage, print_run.
    unfold prepend. cbn [events]. in_trace.
  - apply run_scraper_files.
Qed.

(** X19.  What a run with both settings does when its load or its scrape
    raises: the exception ends the run. *)
Theorem main_stops_when_load_or_scrape_raises fs e :
  truthy (ALBUM_URL cfg) = true → truthy (SLACK_WEBHOOK cfg) = true →
  let run := main cfg env fs in
  (result (load_seen_photos fs) = Raise e →
     result run = Raise e ∧ files run = fs
     ∧ deliveries (events run) = []
     ∧ Forall (λ e, ¬ mutates SEEN_FILE e) (events run)
     ∧ EScrape (ALBUM_URL cfg) ∉ events run)
  ∧ (∀ seen, result (load_seen_photos fs) = Ret seen →
     page_img_srcs env (ALBUM_URL cfg) = ScrapeRaise e →
     result run = Raise e ∧ files run = fs
     ∧ deliveries (events run) = []
     ∧ Forall (λ e, ¬ mutates SEEN_FILE e) (events run)).
Proof.
  intros Ha Hw run. subst run.
  destruct (main_run cfg env fs Ha Hw) as (pre & Hpre & ->). cbv zeta.
  assert (Hh : ∀ tr, Forall harmless tr →
                     Forall (λ e, ¬ mutates SEEN_FILE e) tr).
  { intros tr H. eapply Forall_impl; [done|]. by intros ? []. }
  pose proof (harmless_print _ Hpre) as Hp.
  pose proof (harmless_load fs) as Hl.
  pose proof (harmless_scrape cfg env fs) as Hs.
  split.
  - intros ->. unfold prepend. cbn [result files events]. rewrite app_nil_r.
    split_and!; [done|done|..].
    + apply deliveries_harmless, Forall_app. by split.
    + apply Hh, Forall_app. by split.
    + rewrite elem_of_app. intros [H|H].
      * rewrite Forall_forall in Hpre. by apply Hpre in H.
      * pose proof (load_events fs) as Hev. rewrite Forall_forall in Hev.
        apply Hev in H as [?|[?|?]]; discriminate.
  - intros seen -> Hpage. rewrite run_scraper_result, Hpage.
    rewrite prepend_prepend. unfold prepend. cbn [result files events].
    rewrite app_nil_r.
    split_and!; [done|done|..].
    + apply deliveries_harmless. rewrite !Forall_app. by split_and!.
    + apply Hh. rewrite !Forall_app. by split_and!.
Qed.

Lemma main_nothing_new fs seen photos :
  truthy (ALBUM_URL cfg) = true → truthy (SLACK_WEBHOOK cfg) = true →
  result (load_seen_photos fs) = Ret seen →
  result (run_scraper cfg env fs) = Ret photos →
  (∀ u, u ∈ photos → u ∈ seen) →
  ∃ tr, main cfg env fs =
          {| result := Ret tt; files := fs; events := tr ++ [EPrint MsgNoNew] |}
        ∧ Forall (looks_only cfg) tr.
Proof.
  intros Ha Hw Hl Hs Hsub.
  destruct (main_run cfg env fs Ha Hw) as (pre & Hpre & ->). cbv zeta.
  rewrite Hl, Hs, prepend_prepend, deliver_new_nothing.
  2:{ apply set_eq. intros u.
      rewrite elem_of_difference, elem_of_list_to_set, elem_of_empty.
      split; [|done]. intros [H1 H2]. by apply H2, Hsub. }
  unfold prepend. cbn [result files events].
  eexists. split; [reflexivity|].
  rewrite !Forall_app. split_and!.
  - eapply Forall_impl; [exact Hpre|]. intros ? ?. by left.
  - eapply Forall_impl; [apply load_events|]. unfold looks_only.
    intros ? [->|[->| ->]]; cbn; tauto.
  - eapply Forall_impl; [apply run_scraper_events|]. unfold looks_only.
    intros ? [?| ->]; tauto.
Qed.

Lemma looks_only_harmless tr : Forall (looks_only cfg) tr → Forall harmless tr.
Proof.
  intros H. eapply Forall_impl; [exact H|].
  intros e [He|[->|[->| ->]]]; [destruct e; try done|..];
    (split; [simpl; tauto|discriminate]).
Qed.

(** X16.  When every photo of the album is in the seen set, a run posts
    nothing and changes no file: it prints, looks at the state file and
    scrapes, and its last word is that there is nothing new. *)
Theorem main_posts_nothing_when_nothing_is_new fs seen photos :
  truthy (ALBUM_URL cfg) = true → truthy (SLACK_WEBHOOK cfg) = true →
  result (load_seen_photos fs) = Ret seen →
  result (run_scraper cfg env fs) = Ret photos →
  (∀ u, u ∈ photos → u ∈ seen) →
  let run := main cfg env fs in
  result run = Ret tt
  ∧ files run = fs
  ∧ Forall (looks_only cfg) (events run)
  ∧ deliveries (events run) = []
  ∧ last (events run) = Some (EPrint MsgNoNew).
Proof.
  intros Ha Hw Hl Hs Hsub run. subst run.
  destruct (main_nothing_new fs seen photos Ha Hw Hl Hs Hsub) as (tr & -> & Htr).
  cbn [result files events].
  split_and!; [done|done|..|by rewrite last_snoc].
  - rewrite Forall_app, Forall_singleton. split; [done|by left].
  - rewrite deliveries_app, (deliveries_harmless tr); [done|].
    by apply looks_only_harmless.
Qed.

(** What [deliver_new] attempts is the beginning of its queue. *)
Lemma deliver_new_attempts (seen current : gset str) fs :
  deliveries (events (deliver_new cfg env seen current fs))
  `prefix_of` Str.sorted (elements (current ∖ seen)).
Proof.
  destruct (decide (current ∖ seen = ∅)) as [Hnone|Hnew].
  - rewrite deliver_new_nothing by done. apply prefix_nil.
  - rewrite deliver_new_run by done. cbv zeta.
    destruct (post_all_deliveries cfg env
                (Str.sorted (elements (current ∖ seen))) 0 fs) as [Hpre _].
    cbv zeta in Hpre.
    destruct (result (post_all _ _ _ _ _)) as [n|e];
      [case_bool_decide|]; cbn [events];
      change (deliveries (?e :: ?tr)) with (deliveries tr);
      by rewrite ?deliveries_app, ?app_nil_r.
Qed.

(** How a run that wrote the state file went. *)
Lemma main_saved fs seen photos data :
  truthy (ALBUM_URL cfg) = true → truthy (SLACK_WEBHOOK cfg) = true →
  result (load_seen_photos fs) = Ret seen →
  result (run_scraper cfg env fs) = Ret photos →
  EWrite SEEN_FILE data ∈ events (main cfg env fs) →
  result (main cfg env fs) = Ret tt
  ∧ files (main cfg env fs) !! SEEN_FILE
    = Some (Json.dump_strs (set_iter env (list_to_set photos))).
Proof.
  intros Ha Hw Hl Hs.
  destruct (main_delivering cfg env fs seen photos Ha Hw Hl Hs)
    as (pre & Hpre & ->).
  unfold prepend. cbn [result files events]. rewrite elem_of_app.
  intros [Hin|Hin].
  { exfalso. rewrite Forall_forall in Hpre. destruct (Hpre _ Hin) as [Hm _].
    by apply Hm. }
  destruct (decide (list_to_set photos ∖ seen = (∅ : gset str))) as [Hnone|Hnew].
  { rewrite deliver_new_nothing in Hin by done. cbn [events] in Hin.
    apply list_elem_of_singleton in Hin. discriminate. }
  pose proof (deliver_new_policy cfg env seen (list_to_set photos) fs Hnew) as Hpol.
  cbv zeta in Hpol.
  destruct (result (post_all _ _ _ _ _)) as [n|e].
  - destruct Hpol as (Hres & Hiff & Hpos & _). split; [done|].
    apply Hpos, Hiff. eauto.
  - destruct Hpol as (_ & _ & Hno). by apply Hno in Hin.
Qed.

(** X17.  After a run that saved the state, a second run over the same album
    finds nothing new: it posts nothing and changes no file. So a photo of the
    batch whose delivery failed is not tried again. *)
Theorem second_run_posts_nothing fs seen photos data :
  truthy (ALBUM_URL cfg) = true → truthy (SLACK_WEBHOOK cfg) = true →
  set_iter_ok env →
  result (load_seen_photos fs) = Ret seen →
  result (run_scraper cfg env fs) = Ret photos →
  wf_set (list_to_set photos) →
  let first := main cfg env fs in
  EWrite SEEN_FILE data ∈ events first →
  let second := main cfg env (files first) in
  result second = Ret tt
  ∧ files second = files first
  ∧ deliveries (events second) = []
  ∧ last (events second) = Some (EPrint MsgNoNew).
Proof.
  intros Ha Hw Hok Hl Hs Hwf first Hsaved second. subst first second.
  destruct (main_saved fs seen photos data Ha Hw Hl Hs Hsaved) as [_ Hfile].
  set (fs1 := files (main cfg env fs)) in *.
  assert (Hl1 : result (load_seen_photos fs1) = Ret (list_to_set photos)).
  { by rewrite (load_dump env (list_to_set photos)). }
  assert (Hs1 : result (run_scraper cfg env fs1) = Ret photos).
  { rewrite run_scraper_result. by rewrite run_scraper_result in Hs. }
  destruct (main_nothing_new fs1 _ photos Ha Hw Hl1 Hs1) as (tr & -> & Htr).
  { intros u. by rewrite elem_of_list_to_set. }
  cbn [result files events].
  split_and!; [done|done|..|by rewrite last_snoc].
  rewrite deliveries_app, (deliveries_harmless tr); [done|].
  by apply looks_only_harmless.
Qed.

(** X18.  What a run attempts to deliver are sources of the page that name
    [icloud] and [content.com] and are not in the seen set, each at most once. *)
Theorem main_attempts_only_new_cdn_urls fs seen img_srcs :
  truthy (ALBUM_URL cfg) = true → truthy (SLACK_WEBHOOK cfg) = true →
  set_iter_ok env →
  result (load_seen_photos fs) = Ret seen →
  page_img_srcs env (ALBUM_URL cfg) = ScrapeOk img_srcs →
  let attempts := deliveries (events (main cfg env fs)) in
  NoDup attempts
  ∧ ∀ u, u ∈ attempts →
      u ∈ img_srcs ∧ (u ∉ seen)
      ∧ (∃ a b, u = a ++ py "icloud" ++ b)
      ∧ (∃ a b, u = a ++ py "content.com" ++ b).
Proof.
  intros Ha Hw Hok Hl Hpage attempts. subst attempts.
  pose proof (run_scraper_result fs) as Hs. rewrite Hpage in Hs.
  match type of Hs with _ = Ret ?p => set (photos := p) in * end.
  assert (Hphotos : ∀ u, u ∈ photos →
            u ∈ img_srcs
            ∧ (∃ a b, u = a ++ py "icloud" ++ b)
            ∧ (∃ a b, u = a ++ py "content.com" ++ b)).
  { intros u. unfold photos.
    rewrite set_iter_elem, elem_of_list_to_set, list_elem_of_filter,
      !TextFacts.contains_spec by done. tauto. }
  clearbody photos.
  destruct (main_delivering cfg env fs seen photos Ha Hw Hl Hs)
    as (pre & Hpre & ->).
  unfold prepend. cbn [events].
  rewrite deliveries_app, (deliveries_harmless pre) by done. cbn [app].
  destruct (deliver_new_attempts seen (list_to_set photos) fs) as [rest Hq].
  assert (Hnd : NoDup (Str.sorted (elements
                  ((list_to_set photos : gset str) ∖ seen)))).
  { rewrite StrFacts.sorted_perm. apply NoDup_elements. }
  rewrite Hq in Hnd. apply NoDup_app in Hnd as (Hnd & _ & _).
  split; [done|]. intros u Hu.
  assert (Hin : u ∈ Str.sorted (elements
                  ((list_to_set photos : gset str) ∖ seen))).
  { rewrite Hq, elem_of_app. by left. }
  rewrite StrFacts.sorted_perm, elem_of_elements, elem_of_difference,
    elem_of_list_to_set in Hin.
  destruct Hin as [Hin Hseen]. apply Hphotos in Hin. tauto.
Qed.

(** X20.  A run that does not write the state file leaves it as it was, so the
    next run loads the same seen set and has the same photos to try. *)
Theorem run_without_save_keeps_seen_set fs :
  let run := main cfg env fs in
  (∀ data, EWrite SEEN_FILE data ∉ events run) →
  files run !! SEEN_FILE = fs !! SEEN_FILE
  ∧ result (load_seen_photos (files run)) = result (load_seen_photos fs).
Proof.
  intros run Hno. subst run.
  assert (Hfile : files (main cfg env fs) !! SEEN_FILE = fs !! SEEN_FILE).
  { destruct (truthy (ALBUM_URL cfg)) eqn:Ha;
      [destruct (truthy (SLACK_WEBHOOK cfg)) eqn:Hw|].
    - revert Hno. destruct (main_run cfg env fs Ha Hw) as (pre & Hpre & ->).
      cbv zeta. destruct (result (load_seen_photos fs)) as [seen|e]; [|done].
      destruct (result (run_scraper cfg env fs)) as [photos|e]; [|done].
      rewrite prepend_prepend. unfold prepend. cbn [files events]. intros Hno.
      destruct (decide (list_to_set photos ∖ seen = (∅ : gset str)))
        as [Hnone|Hnew].
      + by rewrite deliver_new_nothing.
      + rewrite deliver_new_run in * by done. cbv zeta in *.
        pose proof (post_all_seen_file cfg env
          (Str.sorted (elements (list_to_set photos ∖ seen))) 0 fs) as Hf.
        destruct (result (post_all _ _ _ _ _)) as [n|e]; [|done].
        case_bool_decide; [|done]. exfalso.
        eapply Hno. cbn [events]. in_trace.
    - by destruct (main_without_setting cfg env fs (or_intror Hw)) as (msg & -> & _).
    - by destruct (main_without_setting cfg env fs (or_introl Ha)) as (msg & -> & _). }
  split; [done|]. by apply load_result_seen_file.
Qed.

Lemma load_first_event fs :
  ∃ tr, events (load_seen_photos fs) = EExists SEEN_FILE :: tr.
Proof.
  destruct (fs !! SEEN_FILE) as [file_text|] eqn:H.
  - destruct (decide (Str.strip file_text = [])) as [Hb|Hb].
    + rewrite (load_blank _ _ H Hb). by eexists.
    + rewrite (load_decoded _ _ H Hb). destruct (Json.loads _); by eexists.
  - rewrite load_missing by done. by eexists.
Qed.

Lemma post_to_slack_without_token url fs :
  truthy (SLACK_API_TOKEN cfg) = false →
  files (post_to_slack cfg env url fs) = fs
  ∧ Forall (λ e, ¬ tier1_event e) (events (post_to_slack cfg env url fs)).
Proof.
  intros Htoken.
  change (wp (post_to_slack cfg env url) fs (λ _ fs' tr,
    fs' = fs ∧ Forall (λ e, ¬ tier1_event e) tr)).
  unfold post_to_slack, webhook_fallback.
  destruct (SLACK_API_TOKEN cfg) as [[|c token]|]; [|done|].
  all: wp_walk; (split; [done|]).
  all: repeat first [apply Forall_app; split | apply Forall_cons; split
                    | apply Forall_nil]; cbn [tier1_event]; tauto.
Qed.

Lemma post_all_without_token urls n fs :
  truthy (SLACK_API_TOKEN cfg) = false →
  files (post_all cfg env urls n fs) = fs
  ∧ Forall (λ e, ¬ tier1_event e) (events (post_all cfg env urls n fs)).
Proof.
  intros Htoken. revert n fs.
  induction urls as [|url rest IH]; intros n fs; [by split|].
  rewrite post_all_cons, bind_unfold.
  destruct (post_to_slack_without_token url fs Htoken) as [Hf He].
  destruct (result (post_to_slack cfg env url fs)) as [ok|e];
    cbn [files events]; [|done].
  destruct (IH (if ok then S n else n) (files (post_to_slack cfg env url fs)))
    as [Hf' He'].
  split; [congruence|]. by apply Forall_app.
Qed.

(** X21.  Without an upload credential a run goes on after two lines of
    warning, and nothing in it downloads, uploads or makes a temporary file:
    the only file it can change is the state file. *)
Theorem run_without_token_changes_only_state_file fs :
  truthy (SLACK_API_TOKEN cfg) = false →
  let run := main cfg env fs in
  Forall (λ e, ¬ tier1_event e) (events run)
  ∧ (∀ q, q ≠ SEEN_FILE → files run !! q = fs !! q)
  ∧ (truthy (ALBUM_URL cfg) = true → truthy (SLACK_WEBHOOK cfg) = true →
     [EPrint MsgChecking; EPrint WarnTokenNotSet; EPrint WarnWebhookOnly;
      EExists SEEN_FILE] `prefix_of` events run).
Proof.
  intros Htoken run. subst run.
  assert (Hprint : ∀ tr, Forall is_print tr → Forall (λ e, ¬ tier1_event e) tr).
  { intros tr H. eapply Forall_impl; [exact H|]. intros [] ?; cbn in *; tauto. }
  destruct (truthy (ALBUM_URL cfg)) eqn:Ha;
    [destruct (truthy (SLACK_WEBHOOK cfg)) eqn:Hw|].
  2,3: destruct (main_without_setting cfg env fs ltac:(auto)) as (msg & -> & _);
    cbn [files events]; split_and!; [|done|done];
    by repeat (apply Forall_cons; split; [cbn; tauto|]).
  split_and!.
  - destruct (main_run cfg env fs Ha Hw) as (pre & Hpre & ->). cbv zeta.
    assert (Hl : Forall (λ e, ¬ tier1_event e) (events (load_seen_photos fs))).
    { eapply Forall_impl; [apply load_events|].
      intros ? [->|[->| ->]]; cbn; tauto. }
    assert (Hs : Forall (λ e, ¬ tier1_event e) (events (run_scraper cfg env fs))).
    { eapply Forall_impl; [apply run_scraper_events|].
      intros [] [?| ?]; cbn; try tauto; discriminate. }
    apply Hprint in Hpre.
    destruct (result (load_seen_photos fs)) as [seen|e];
      [destruct (result (run_scraper cfg env fs)) as [photos|e]|];
      unfold prepend; cbn [events]; rewrite ?app_nil_r, ?Forall_app;
      split_and?; try done.
    destruct (decide (list_to_set photos ∖ seen = (∅ : gset str))) as [Hnone|Hnew].
    + rewrite deliver_new_nothing by done. cbn [events].
      apply Forall_singleton. cbn. tauto.
    + rewrite deliver_new_run by done. cbv zeta.
      destruct (post_all_without_token
        (Str.sorted (elements (list_to_set photos ∖ seen))) 0 fs Htoken)
        as [_ He].
      destruct (result (post_all _ _ _ _ _)) as [n|e];
        [case_bool_decide|]; cbn [events];
        rewrite ?Forall_cons, ?Forall_app, ?Forall_cons, ?Forall_nil;
        cbn [tier1_event]; tauto.
  - intros q Hq.
    destruct (main_run cfg env fs Ha Hw) as (pre & Hpre & ->). cbv zeta.
    destruct (result (load_seen_photos fs)) as [seen|e];
      [destruct (result (run_scraper cfg env fs)) as [photos|e]|];
      unfold prepend; cbn [files]; try done.
    destruct (decide (list_to_set photos ∖ seen = (∅ : gset str))) as [Hnone|Hnew].
    + by rewrite deliver_new_nothing.
    + rewrite deliver_new_run by done. cbv zeta.
      destruct (post_all_without_token
        (Str.sorted (elements (list_to_set photos ∖ seen))) 0 fs Htoken)
        as [Hf _].
      destruct (result (post_all _ _ _ _ _)) as [n|e];
        [case_bool_decide|]; cbn [files]; rewrite Hf; try done.
      by rewrite lookup_insert_ne.
  - intros _ _. unfold main. rewrite Ha, Hw, Htoken. cbn [negb].
    rewrite print_run, bind_run.
    change (result ((print WarnTokenNotSet;; print WarnWebhookOnly) fs))
      with (Ret (A:=unit) tt).
    change (events ((print WarnTokenNotSet;; print WarnWebhookOnly) fs))
      with [EPrint WarnTokenNotSet; EPrint WarnWebhookOnly].
    change (files ((print WarnTokenNotSet;; print WarnWebhookOnly) fs)) with fs.
    cbv beta iota. rewrite bind_run. unfold prepend. cbn [events app].
    destruct (load_first_event fs) as [tr Htr].
    destruct (result (load_seen_photos fs)); cbn [events app]; rewrite Htr;
      eexists; reflexivity.
Qed.

End RunFacts.

(** ** The model on concrete inputs *)

Example filename_of_url :
  filename_of (py "https://cvws.icloud-content.com/B/a.jpg?o=1&k=/x")
  = py "a.jpg".
Proof. reflexivity. Qed.

Example strip_blank : Str.strip [32; 10; 9; 160; 13] = [].
Proof. reflexivity. Qed.

Example strip_keeps_inner : Str.strip (py "  [ ]  ") = py "[ ]".
Proof. reflexivity. Qed.

Example sorted_is_by_code_point :
  Str.sorted [py "b"; py "ab"; py "B"; py "a"] = [py "B"; py "a"; py "ab"; py "b"].
Proof. reflexivity. Qed.

Example dump_escapes :
  Json.dump_strs [34 :: py "a\b"; [233]; [128512]]
  = 91 :: 34 :: 92 :: 34 :: py "a\\b" ++ 34 :: py ", " ++
    34 :: py "\u00e9" ++ 34 :: py ", " ++
    34 :: py "\ud83d\ude00" ++ [34; 93].
Proof. reflexivity. Qed.

Example loads_mixed :
  Json.loads (py " [1, -2.5e3, null, true, [], {}] ")
  = Some (Json.JArr [Json.JNum (py "1"); Json.JNum (py "-2.5e3"); Json.JNull;
                     Json.JBool true; Json.JArr []; Json.JObj []]).
Proof. reflexivity. Qed.

Example loads_rejects_trailing_comma : Json.loads (py "[1,]") = None.
Proof. reflexivity. Qed.

Example loads_rejects_leading_zero : Json.loads (py "01") = None.
Proof. reflexivity. Qed.

Example loads_joins_surrogates :
  Json.loads (34 :: py "\ud83d\ude00" ++ [34]) = Some (Json.JStr [128512]).
Proof. reflexivity. Qed.

Example metadata_lines_device_only :
  metadata_lines
    (collect_metadata [(py "Make", py "Apple"); (py "Software", py "17.4");
                       (py "Model", py "iPhone 15")])
  = 128241 :: py " Device: Apple iPhone 15" ++ [10].
Proof. vm_compute. reflexivity. Qed.

Example scraper_filters_and_dedups :
  result (run_scraper Sample.cfg Sample.env ∅)
  = Ret [Sample.photo_b; Sample.photo_a].
Proof. vm_compute. reflexivity. Qed.

(** ** The theorems on sample runs *)

Lemma sample_set_iter_ok : set_iter_ok Sample.env.
Proof. intros X. reflexivity. Qed.



(** Saving one identifier over a file that records another, then loading,
    gives the one that was saved. *)
Lemma save_then_load_roundtrip_witness :
  let old : FS := {[ SEEN_FILE := Json.dump_strs [Sample.photo_b] ]} in
  result (load_seen_photos
            (files (save_seen_photos Sample.env {[ Sample.photo_a ]} old)))
  = Ret {[ Sample.photo_a ]}.
Proof.
  intros old.
  apply (save_then_load_roundtrip Sample.env {[ Sample.photo_a ]} old).
  - intros X. reflexivity.
  - apply (bool_decide_unpack _). by vm_compute.
Defined.

(** Without a webhook a run prints two lines and does nothing else. *)
Lemma main_aborts_without_required_setting_witness :
  events (main Sample.cfg_no_webhook Sample.env ∅)
  = [EPrint MsgChecking; EPrint ErrWebhookNotSet].
Proof.
  destruct (main_aborts_without_required_setting
              Sample.cfg_no_webhook Sample.env ∅ (or_intror eq_refl))
    as (_ & _ & [H|H] & _).
  - vm_compute in H. discriminate.
  - exact H.
Defined.

(** A delivery that succeeds leaves the state file with what it held. *)
Lemma delivery_leaves_state_file_alone_witness :
  let old : FS := {[ SEEN_FILE := Json.dump_strs [Sample.photo_b] ]} in
  files (post_to_slack Sample.cfg Sample.env Sample.photo_a old) !! SEEN_FILE
  = Some (Json.dump_strs [Sample.photo_b]).
Proof.
  intros old.
  destruct (proj1 (delivery_leaves_state_file_alone Sample.cfg Sample.env)
              Sample.photo_a old) as [_ H].
  rewrite H. reflexivity.
Defined.

(** Without a credential, one message is posted and its text is the
    header. *)
Lemma webhook_text_is_header_without_token_witness :
  ∃ p, webhook_posts (events (post_to_slack Sample.cfg_webhook_only Sample.env
                                Sample.photo_a ∅)) = [p]
       ∧ text p = WEBHOOK_HEADER ∧ image_url p = Sample.photo_a.
Proof.
  destruct (webhook_text_is_header_without_token Sample.cfg_webhook_only
              Sample.env Sample.photo_a ∅ eq_refl) as (_ & _ & H).
  exact (H Sample.hook eq_refl).
Defined.

(** The upload is refused with status 500 and the webhook accepts: the
    delivery succeeds through the second tier. *)
Lemma tier1_falls_back_unless_download_refused_witness :
  let env := Sample.world Sample.image (UploadResp 500 [] (JsonOk false))
                          (PostResp 200 []) in
  result (post_to_slack Sample.cfg env Sample.photo_a ∅) = Ret true.
Proof.
  intros env.
  destruct (tier1_falls_back_unless_download_refused Sample.cfg env
              Sample.hook Sample.photo_a ∅ eq_refl) as [H _].
  - intros p. by exists [].
  - apply H. intros status chunks stream_error [= <- _ _]. reflexivity.
Defined.

(** C2, the claim as stated, fails: with a credential, a download answered
    with 404 and a webhook that would answer 200, the delivery returns
    false and posts nothing to the webhook. *)
Lemma download_refused_is_not_delivered :
  SLACK_API_TOKEN Sample.cfg = Some (py "xoxb-1")
  ∧ SLACK_WEBHOOK Sample.cfg = Some Sample.hook
  ∧ http_get Sample.env_download_refused Sample.photo_a = GetResp 404 [] None
  ∧ (∀ p, webhook_post Sample.env_download_refused Sample.hook p
          = PostResp 200 (py "ok"))
  ∧ let o := post_to_slack Sample.cfg Sample.env_download_refused
               Sample.photo_a ∅ in
    result o = Ret false ∧ webhook_posts (events o) = [].
Proof.
  split_and!; try done; cbv zeta; split; vm_compute; reflexivity.
Qed.



(** C7 on a sample run: the upload request raises, the webhook delivers,
    and the temporary file is still there afterwards. *)
Lemma temp_file_left_when_upload_raises_witness :
  let o := post_to_slack Sample.cfg Sample.env_upload_breaks Sample.photo_a ∅ in
  result o = Ret true
  ∧ is_Some (files o !! temp_path Sample.env_upload_breaks Sample.photo_a).
Proof.
  intros o. split; [vm_compute; reflexivity|].
  destruct (temp_file_left_when_upload_raises Sample.cfg
              Sample.env_upload_breaks Sample.photo_a ∅ 120 (py "oxb-1")
              [py "JFIF"; []; py "data"] eq_refl eq_refl) as (_ & _ & H).
  - intros filename content comment. by exists RequestException.
  - exact H.
Defined.

(** ** Further sample runs *)

(** The file name of the first sample photo. *)
Lemma filename_is_last_path_segment_witness :
  filename_of (py "https://cvws.icloud-content.com/B" ++ 47 :: py "a.jpg"
               ++ 63 :: py "o=1") = py "a.jpg".
Proof.
  destruct filename_is_last_path_segment as (_ & H & _).
  apply (H (py "https://cvws.icloud-content.com/B") (py "a.jpg") (py "o=1"));
    apply (bool_decide_unpack _); by vm_compute.
Defined.

(** A state file with a space before the array and a line feed after. *)
Lemma load_ignores_surrounding_whitespace_witness :
  let fs : FS := {[ SEEN_FILE := Json.dump_strs [Sample.photo_a] ]} in
  result (load_seen_photos
            (<[SEEN_FILE := [32] ++ Json.dump_strs [Sample.photo_a] ++ [10]]> fs))
  = result (load_seen_photos fs).
Proof.
  intros fs.
  apply (load_ignores_surrounding_whitespace fs
           (Json.dump_strs [Sample.photo_a]) [32] [10]).
  - by repeat constructor.
  - by repeat constructor.
  - reflexivity.
Defined.

(** A state file that lists one photo twice. *)
Lemma load_reads_array_as_set_witness :
  let l := [Sample.photo_b; Sample.photo_a; Sample.photo_b] in
  result (load_seen_photos {[ SEEN_FILE := Json.dump_strs l ]})
  = Ret (list_to_set l).
Proof.
  intros l.
  destruct (load_reads_array_as_set {[ SEEN_FILE := Json.dump_strs l ]} l)
    as [H _].
  - apply (bool_decide_unpack _). vm_compute. exact I.
  - apply lookup_singleton_eq.
  - exact H.
Defined.

(** The sample page: four sources, two photos. *)
Lemma run_scraper_keeps_cdn_urls_once_witness :
  ∃ photos,
    result (run_scraper Sample.cfg Sample.env ∅) = Ret photos ∧ NoDup photos.
Proof.
  destruct (run_scraper_keeps_cdn_urls_once Sample.cfg Sample.env ∅
              [Sample.photo_b; Sample.photo_a;
               py "https://www.icloud.com/logo.png"; Sample.photo_b])
    as (photos & H1 & H2 & _).
  - intros X. reflexivity.
  - reflexivity.
  - exists photos. split; assumption.
Defined.

(** The browser raises: so does the run. *)
Lemma main_stops_when_load_or_scrape_raises_witness :
  result (main Sample.cfg Faults.env_browser_breaks ∅) = Raise OtherError.
Proof.
  destruct (main_stops_when_load_or_scrape_raises Sample.cfg
              Faults.env_browser_breaks ∅ OtherError eq_refl eq_refl)
    as [_ H].
  destruct (H ∅) as [Hres _]; [vm_compute; reflexivity|reflexivity|].
  exact Hres.
Defined.

(** Both photos of the sample page are in the state file. *)
Lemma main_posts_nothing_when_nothing_is_new_witness :
  let fs : FS :=
    {[ SEEN_FILE := Json.dump_strs [Sample.photo_a; Sample.photo_b] ]} in
  files (main Sample.cfg Sample.env fs) = fs
  ∧ deliveries (events (main Sample.cfg Sample.env fs)) = [].
Proof.
  intros fs.
  destruct (main_posts_nothing_when_nothing_is_new Sample.cfg Sample.env fs
              (list_to_set [Sample.photo_a; Sample.photo_b])
              [Sample.photo_b; Sample.photo_a] eq_refl eq_refl)
    as (_ & Hf & _ & Hd & _).
  - apply load_array; [|apply lookup_singleton_eq].
    apply (bool_decide_unpack _). vm_compute. exact I.
  - vm_compute. reflexivity.
  - intros u Hu. apply elem_of_list_to_set.
    rewrite !elem_of_cons in *. tauto.
  - split; [exact Hf|exact Hd].
Defined.

(** The first run over the sample page saves; the second posts nothing. *)
Lemma second_run_posts_nothing_witness :
  let first := main Sample.cfg Sample.env ∅ in
  deliveries (events (main Sample.cfg Sample.env (files first))) = [].
Proof.
  intros first.
  destruct (second_run_posts_nothing Sample.cfg Sample.env ∅ ∅
              [Sample.photo_b; Sample.photo_a]
              (Json.dump_strs (elements
                 (list_to_set [Sample.photo_b; Sample.photo_a] : gset str)))
              eq_refl eq_refl)
    as (_ & _ & H & _).
  - intros X. reflexivity.
  - vm_compute. reflexivity.
  - vm_compute. reflexivity.
  - apply (bool_decide_unpack _). by vm_compute.
  - apply (list_elem_of_lookup_2 _
             (length (events (main Sample.cfg Sample.env ∅)) - 2)).
    vm_compute. reflexivity.
  - exact H.
Defined.

(** The attempts of a run over the sample page. *)
Lemma main_attempts_only_new_cdn_urls_witness :
  NoDup (deliveries (events (main Sample.cfg Sample.env ∅))).
Proof.
  destruct (main_attempts_only_new_cdn_urls Sample.cfg Sample.env ∅ ∅
              [Sample.photo_b; Sample.photo_a;
               py "https://www.icloud.com/logo.png"; Sample.photo_b]
              eq_refl eq_refl) as [H _].
  - intros X. reflexivity.
  - vm_compute. reflexivity.
  - reflexivity.
  - exact H.
Defined.

(** Every download is refused: nothing is delivered and nothing saved. *)
Lemma run_without_save_keeps_seen_set_witness :
  files (main Sample.cfg Sample.env_download_refused ∅) !! SEEN_FILE = None.
Proof.
  destruct (run_without_save_keeps_seen_set Sample.cfg
              Sample.env_download_refused ∅) as [H _].
  - intros data Hin.
    set (tr := events _) in Hin. vm_compute in tr. subst tr.
    not_in_trace Hin.
  - exact H.
Defined.

(** A run without a credential leaves a file of the user alone. *)
Lemma run_without_token_changes_only_state_file_witness :
  let fs : FS := {[ py "notes.txt" := py "mine" ]} in
  files (main Sample.cfg_webhook_only Sample.env fs) !! py "notes.txt"
  = Some (py "mine").
Proof.
  intros fs.
  destruct (run_without_token_changes_only_state_file Sample.cfg_webhook_only
              Sample.env fs eq_refl) as (_ & H & _).
  rewrite H; [reflexivity|]. apply (bool_decide_unpack _). by vm_compute.
Defined.

(** Everything answers and accepts: the upload delivers. *)
Lemma accepted_upload_delivers_the_download_witness :
  let o := post_to_slack Sample.cfg Sample.env Sample.photo_a ∅ in
  result o = Ret true ∧ webhook_posts (events o) = [] ∧ files o = ∅.
Proof.
  intros o.
  destruct (accepted_upload_delivers_the_download Sample.cfg Sample.env
              Sample.photo_a ∅ 120 (py "oxb-1") [py "JFIF"; []; py "data"] []
              eq_refl eq_refl eq_refl) as (H1 & _ & H3 & H4).
  split_and!; [exact H1|exact H3|]. subst o. rewrite H4. apply delete_empty.
Defined.

(** The EXIF parser raises and the upload is accepted. *)
Lemma exif_failure_does_not_stop_upload_witness :
  result (post_to_slack Sample.cfg Faults.env_exif_breaks Sample.photo_a ∅)
  = Ret true.
Proof.
  destruct (exif_failure_does_not_stop_upload Sample.cfg Faults.env_exif_breaks
              Sample.photo_a ∅ 120 (py "oxb-1") [py "JFIF"; []; py "data"]
              eq_refl eq_refl eq_refl) as (_ & _ & H).
  exact (H [] eq_refl).
Defined.

(** The upload is refused: the webhook message has the device line. *)
Lemma refused_upload_hands_metadata_to_webhook_witness :
  ∃ p,
    webhook_posts (events (post_to_slack Sample.cfg Faults.env_upload_refused
                             Sample.photo_a ∅)) = [p]
    ∧ text p = WEBHOOK_HEADER ++ 10 :: 128241 :: py " Device: Apple iPhone"
               ++ [10].
Proof.
  destruct (refused_upload_hands_metadata_to_webhook Sample.cfg
              Faults.env_upload_refused Sample.hook Sample.photo_a ∅
              120 (py "oxb-1") [py "JFIF"; []; py "data"]
              eq_refl eq_refl eq_refl) as (p & H1 & _ & H3).
  - intros body_text. discriminate.
  - exists p. split; [exact H1|]. rewrite H3. vm_compute. reflexivity.
Defined.

(** The download is refused: no file appears. *)
Lemma failed_download_creates_no_file_witness :
  files (post_to_slack Sample.cfg Sample.env_download_refused Sample.photo_a ∅)
  = ∅.
Proof.
  destruct (failed_download_creates_no_file Sample.cfg
              Sample.env_download_refused Sample.photo_a ∅ 120 (py "oxb-1")
              eq_refl) as [H _].
  - intros chunks stream_error. discriminate.
  - exact H.
Defined.

(** The stream breaks after one chunk: the chunk stays on disk. *)
Lemma broken_stream_leaves_partial_file_witness :
  files (post_to_slack Sample.cfg Faults.env_stream_breaks Sample.photo_a ∅)
  = {[ temp_path Faults.env_stream_breaks Sample.photo_a := py "JFIF" ]}.
Proof.
  destruct (broken_stream_leaves_partial_file Sample.cfg
              Faults.env_stream_breaks Sample.photo_a ∅ 120 (py "oxb-1")
              [py "JFIF"] RequestException eq_refl eq_refl) as [H _].
  rewrite H. reflexivity.
Defined.

(** Without a credential the one message names the photo. *)
Lemma webhook_message_names_the_photo_witness :
  let o := post_to_slack Sample.cfg_webhook_only Sample.env Sample.photo_a ∅ in
  ∃ p, EWebhook Sample.hook p ∈ events o
       ∧ image_url p = Sample.photo_a
       ∧ attachment_text p = py "Filename: `a.jpg`".
Proof.
  intros o.
  assert (Hin : EWebhook Sample.hook
                  (fallback_payload Sample.photo_a (py "a.jpg") None)
                ∈ events o).
  { apply (list_elem_of_lookup_2 _ 2). vm_compute. reflexivity. }
  destruct (webhook_message_names_the_photo Sample.cfg_webhook_only Sample.env
              Sample.photo_a ∅) as [_ H].
  destruct (H _ _ Hin) as (_ & H2 & _ & H4 & _).
  eexists. split; [exact Hin|]. split; [exact H2|exact H4].
Defined.

(** A delivery leaves a file of the user alone. *)
Lemma delivery_changes_only_its_temporary_file_witness :
  let fs : FS := {[ py "notes.txt" := py "mine" ]} in
  files (post_to_slack Sample.cfg Sample.env Sample.photo_a fs) !! py "notes.txt"
  = Some (py "mine").
Proof.
  intros fs.
  destruct (delivery_changes_only_its_temporary_file Sample.cfg Sample.env
              Sample.photo_a fs) as [H _].
  rewrite H; [reflexivity|]. apply (bool_decide_unpack _). by vm_compute.
Defined.

(** Two photos, both delivered: two lines of success. *)
Lemma success_count_counts_success_lines_witness :
  let loop := post_all Sample.cfg Sample.env
                [Sample.photo_a; Sample.photo_b] 0 ∅ in
  length (success_lines (events loop)) = 2%nat.
Proof.
  intros loop.
  destruct (success_count_counts_success_lines Sample.cfg Sample.env)
    as [_ H].
  destruct (H [Sample.photo_a; Sample.photo_b] 0%nat ∅ 2%nat) as [Hc _].
  - vm_compute. reflexivity.
  - symmetry. exact Hc.
Defined.

(** A make, a model and a tag that is not shown. *)
Lemma metadata_lines_show_date_and_device_witness :
  (128241 :: py " Device: Apple iPhone 15" ++ [10])
  `suffix_of` metadata_lines
    (collect_metadata [(py "Make", py "Apple"); (py "Software", py "17.4");
                       (py "Model", py "iPhone 15")]).
Proof.
  destruct (metadata_lines_show_date_and_device
              [(py "Make", py "Apple"); (py "Software", py "17.4");
               (py "Model", py "iPhone 15")]) as (_ & H & _).
  - apply (bool_decide_unpack _). by vm_compute.
  - apply (H (py "Apple") (py "iPhone 15")); in_trace.
Defined.

(** The upload is answered: the temporary file is gone. *)
Lemma temp_file_removed_when_upload_answers_witness :
  files (post_to_slack Sample.cfg Faults.env_upload_refused Sample.photo_a ∅)
  !! temp_path Faults.env_upload_refused Sample.photo_a = None.
Proof.
  destruct (temp_file_removed_when_upload_answers Sample.cfg
              Faults.env_upload_refused Sample.photo_a ∅ 120 (py "oxb-1")
              [py "JFIF"; []; py "data"] eq_refl eq_refl) as [_ H].
  - intros filename content comment. by eexists _, _, _.
  - exact H.
Defined.
